(* ===== verification/_CoqProject ===== *)
-Q . S2P
Prelude.v
JsValue.v
Ast.v
CommentMap.v
State.v
PositionIndex.v
Reconciler.v
Driver.v
Regenerator.v
Formatter.v
Convert.v
