(* ===== verification/Prelude.v ===== *)
(** * A verification development for flow-to-ts's conversion pipeline

    The program is [src/src/convert.js] (100 lines), the core of the
    flow-to-ts transpiler. It exports [convert flowCode options] and
    [parseOptions]. [convert] runs a pipeline of five parts:

    - Parser (external, [@babel/parser]): [parse(flowCode, parseOptions)]
      yields an AST whose nodes carry [leadingComments]/[trailingComments]
      and a flat [ast.comments] list (convert.js lines 1, 9-27, 56).
    - Position Index (convert.js 61-64): [startLineToComments] maps the start
      line of every comment to the comment, last write wins.
    - Rewrite Driver (convert.js 59, 66-73 with the external
      [transform.js]): a fresh JS [Map] and a fresh Conversion State
      [state] ([usedUtilityTypes], [options] merged over
      [{inlineUtilityTypes: false}], a second reference to that [Map], and
      [startLineToComments]) are threaded through [traverse(ast,
      transform)]. The handlers record in the [Map], for every comment key
      ["start:end"], the nodes that carry it as leading and as trailing
      comment.
    - Comment Reconciler (convert.js 29-53, [fixComments]): for every entry
      of the map that has both a leading and a trailing node it filters the
      trailing node's [trailingComments] in place, keeping same-line line
      comments and dropping the comment of that entry.
    - Text Regenerator and Formatter Adapter (convert.js 77-97): the AST is
      printed by [@babel/generator], [state.trailingLines] newlines are
      appended, and when [options.prettier] is truthy the text goes through
      prettier with [{parser: "typescript", plugins, ...prettierOptions}]
      and is trimmed.

    ** Files, in dependency order (see _CoqProject)

    - [Prelude] (this file): the [conv_scope] notations, the log-and-error
      monad [LE] in which the JS code's exceptions and [console.log] output
      are values ([ret], [throw], [emit], [bind], [foldM] for a
      [for ... of] loop, [filterM] for an [Array.prototype.filter] whose
      callback logs), insertion-ordered string-keyed tables
      [tbl_get]/[tbl_set] (the shape of a JS object and of a JS [Map]),
      shared lemmas on [List.filter] and strings, and the hint databases
      [conv] and [conv_rw].
    - [JsValue]: JS values, truthiness ([truthy], [guarded_flag] for
      [options && options.x]), [Object.assign] and object spread
      ([obj_assign], [own_props]), [String.prototype.trim] ([js_trim]) with
      its characterisation, and the template literal [`${n}`]
      ([js_N_to_string]) with its decimal read-back.
    - [Ast]: Babel's comments and nodes, the node store [heap] (JS objects
      shared by reference, so that an update through one map entry is seen
      through every alias), the range key [range_key] with
      [parse_range_key], the error type [conv_error] and the log events.
    - [CommentMap]: the value [{leading, trailing}] of [commentsToNodesMap]
      and the map's key-uniqueness invariant [cmap_wf].
    - [State]: the store of JS [Map] objects ([mstore], [new_map] for
      [new Map()], [map_at] to read through a reference), [conv_state]
      whose [commentsToNodesMap] is a reference, [merge_options],
      [init_state], the [world] the walk threads (nodes, [Map]s, [state])
      with its typing invariant [world_ok].
    - [PositionIndex]: [index_comments], lines 61-64.
    - [Reconciler]: [fix_filter_cb], [fix_entry], [fixComments] (lines
      29-53), the declarative [fixComments_spec] with a [Proper] instance
      over [Permutation] and pointwise store equality [heap_eq], the view
      [fix_entry_viewP] of one iteration, and a concrete scenario.
    - [Driver]: the interface [Transform]/[TransformLaws] of the external
      walker and handlers, the spec-modelled [record_comments] written
      through [state.commentsToNodesMap], the recursive walk [walk] and
      [traverse] (line 73),
      and the simulation [traverse_sim] of two catalogs that differ only in
      the utility types they report.
    - [Regenerator]: [newline_loop] and [append_trailing_lines] (lines
      83-86).
    - [Formatter]: [prettier_options] and [format_output] (lines 88-97)
      against the interface [Prettier].
    - [Convert]: [parseOptions], [convert] and [module_exports] (lines
      9-27, 55-101) against [Collaborators] (parser and generator), the
      stage-by-stage view [run_trace] of a successful run, the rest of a
      run after the walk [after_walk], and end-to-end
      scenarios, one of them with a handler that replaces
      [state.commentsToNodesMap].

    ** What the theorems show

    - Reconciler: [fixComments] refines [fixComments_spec] (it completes
      whenever every trailing node of a both-claimed entry has an array,
      and its result is the specification node by node); same-line line
      comments are never dropped; it is idempotent; the order of the map
      does not matter; it drops exactly the comment filed under a
      both-claimed entry and leaves leading comments alone; it keeps the
      remaining comments in order and writes no other field; it throws a
      [TypeError] when a trailing node has no array; malformed locations
      are logged and fall through to the key test.
    - Convert: errors of the parser and of the handlers are the result;
      an unlocated comment makes [convert] throw while indexing. The
      end-to-end theorems take the parser's AST, the index and the walked
      world of the run as hypotheses, and state what [convert] does next
      as an equation on [convert]: without prettier it hands the generator
      a store equal to [fixComments_spec] of the [Map] of line 59 and
      appends [trailingLines] newlines; the store [fixComments] returns is
      the one the generator gets, and it keeps every same-line comment;
      with prettier, the result is prettier's output on that text,
      trimmed; the debug dump is logged. Under the handler laws the [Map] [fixComments] reads through
      the local binding is the one the walk filled through [state], with
      unique keys; [convert] returns a string whenever the external parts
      do, the comments are located and the trailing arrays exist
      (liveness); the set of used utility types does not influence the
      result (noninterference).
    - PositionIndex: last write wins; every entry of a completed index
      is a comment of the list, stored under its start line. Driver:
      recording names the node in the entry of each of its comments; two
      catalogs that differ only in the utility types they report walk
      alike ([traverse_sim]). State: the options merge. Regenerator: the
      loop terminates with the chosen fuel
      and adds exactly [max 0 trailingLines] characters. Formatter: the
      caller's [prettierOptions] override the defaults; formatter errors
      propagate. Ast: distinct ranges give distinct keys.

    ** Modelling choices, bounds and fuel

    - Exceptions are the [inl] branch of [LE]; [console.log] calls are
      events appended to its log. The external parts are assumed only to
      append to the log ([Convert.PipelineLaws]).
    - Numbers compared by the code (line numbers, offsets, the loop counter)
      are [Z] or [N]; in a source file they stay far below 2^53, where JS
      doubles are exact. [NaN] is not among the modelled numbers.
    - The trailing-newline loop runs [i] from 0 while [i < trailingLines];
      its fuel [loop_fuel] is exactly the number of iterations
      ([Z.to_nat trailingLines], 0 when the property is [undefined]), and
      [newline_loop_terminates] shows that more fuel changes nothing.
    - The walk's fuel is the call stack the engine allows
      ([Transform.stack_limit], 100 frames in the examples); running out
      of it is JavaScript's [RangeError].
    - The node store is a total function from references to nodes: a
      reference held by the map always denotes a live object; results are
      compared with [heap_eq].
    - JS objects are ordered property lists; the special order of
      integer-like keys is not modelled (no code path iterates them).
      [trim] is modelled on 8-bit code units, whose white space is TAB,
      LF, VT, FF, CR, SPACE and NO-BREAK SPACE.
    - JS objects that the code shares by reference are kept in stores:
      nodes in [heap], [Map]s in [mstore]. [state.commentsToNodesMap] and
      the local [commentsToNodesMap] of line 59 are the same reference, so
      writes through one are read through the other.
    - Handlers are assumed, as spec 4.2 says, to leave the [Map]s,
      [state.options], [state.startLineToComments] and the field
      [state.commentsToNodesMap] to the driver ([TransformLaws]); under
      that law the map passed to [fixComments] is the one the walk filled
      ([Convert.convert_reconciles_state_map]). A handler that assigns the
      field is shown in [Convert.convert_replaced_map_duplicates].

    ** Not modelled, and the plan for later work

    The parser, generator, formatter and the per-node rewrite rules of
    [transform.js] are the interfaces [Collaborators], [Prettier] and
    [Transform] (spec section 6); the text of the debug dump is a log
    event. The walker is modelled with enter handlers only; babel's exit
    handlers, [path.skip()] and the requeueing of replaced paths are not
    modelled, as the spec leaves the exact order to the walker. Further
    planned work: the comment recording as [transform.js] performs it per
    node type (once that file is available), and numeric coercion of
    non-integer [trailingLines] values (only [transform.js] assigns that
    property).
*)

From stdpp Require Export base list gmap strings.
From Stdlib Require Export ZArith String.

Declare Scope conv_scope.
Delimit Scope conv_scope with conv.

(** ** The log-and-error monad

    A computation reads the log written so far and returns the extended
    log together with either an exception ([inl]) or a value ([inr]). *)

Definition LE (L E A : Type) : Type := list L -> list L * (E + A).

Section LogErr.
Context {L E : Type}.

Definition ret {A} (a : A) : LE L E A := fun lg => (lg, inr a).
Definition throw {A} (e : E) : LE L E A := fun lg => (lg, inl e).
Definition emit (l : L) : LE L E unit := fun lg => (lg ++ [l], inr tt).
Definition bind {A B} (c : LE L E A) (f : A -> LE L E B) : LE L E B :=
  fun lg => match c lg with
            | (lg', inl e) => (lg', inl e)
            | (lg', inr a) => f a lg'
            end.

(** [for (const x of xs) s = f(x, s)] with early exit on an exception. *)
Fixpoint foldM {A S} (f : A -> S -> LE L E S) (xs : list A) (s : S) : LE L E S :=
  match xs with
  | [] => ret s
  | x :: xs' => bind (f x s) (foldM f xs')
  end.

(** [xs.filter(p)] with a callback that may log: the callback runs on
    every element, in order. *)
Fixpoint filterM {A} (p : A -> LE L E bool) (xs : list A) : LE L E (list A) :=
  match xs with
  | [] => ret []
  | x :: xs' =>
      bind (p x) (fun b => bind (filterM p xs') (fun r => ret (if b then x :: r else r)))
  end.

(** The value of a run, or [d] when it threw. *)
Definition outcome_or {A} (r : list L * (E + A)) (d : A) : A :=
  match r.2 with inr a => a | inl _ => d end.

(** A computation is framed when it only appends to the log it is given. *)
Definition framed {A} (c : LE L E A) : Prop :=
  forall lg, c lg = (lg ++ fst (c []), snd (c [])).
End LogErr.

Notation "x <- c ;; k" := (bind c (fun x => k))
  (at level 100, c at next level, right associativity) : conv_scope.
Notation "c ;;; k" := (bind c (fun _ => k))
  (at level 100, right associativity) : conv_scope.

Open Scope conv_scope.

Create HintDb conv.
Create Rewrite HintDb conv_rw.

Section LogErrLemmas.
Context {L E : Type}.

Lemma framed_ret {A} (a : A) : framed (L:=L) (E:=E) (ret a).
Proof. intros lg. by rewrite app_nil_r. Qed.

Lemma framed_throw {A} (e : E) : framed (L:=L) (A:=A) (throw e).
Proof. intros lg. by rewrite app_nil_r. Qed.

Lemma framed_emit (l : L) : framed (E:=E) (emit l).
Proof. intros lg. reflexivity. Qed.

Lemma framed_bind {A B} (c : LE L E A) (f : A -> LE L E B) :
  framed c -> (forall a, framed (f a)) -> framed (bind c f).
Proof.
  intros Hc Hf lg. unfold bind. rewrite (Hc lg).
  destruct (c []) as [l0 [e|a]]; simpl; [reflexivity|].
  rewrite (Hf a (lg ++ l0)), (Hf a l0). simpl. by rewrite app_assoc.
Qed.

Lemma framed_foldM {A S} (f : A -> S -> LE L E S) xs :
  (forall x s, framed (f x s)) -> forall s, framed (foldM f xs s).
Proof.
  intros Hf. induction xs as [|x xs IH]; intros s; simpl.
  - apply framed_ret.
  - apply framed_bind; auto.
Qed.

Lemma bind_inr {A B} (c : LE L E A) (f : A -> LE L E B) lg lg' b :
  bind c f lg = (lg', inr b) -> exists lg1 a, c lg = (lg1, inr a) /\ f a lg1 = (lg', inr b).
Proof. unfold bind. destruct (c lg) as [lg1 [e|a]]; [done|]. eauto. Qed.

Lemma bind_inl {A B} (c : LE L E A) (f : A -> LE L E B) lg lg1 e :
  c lg = (lg1, inl e) -> bind c f lg = (lg1, inl e).
Proof. unfold bind. by intros ->. Qed.

Lemma bind_inr_step {A B} (c : LE L E A) (f : A -> LE L E B) lg lg1 a :
  c lg = (lg1, inr a) -> bind c f lg = f a lg1.
Proof. unfold bind. by intros ->. Qed.

(** A callback that never throws and decides by [f] filters as [f]. *)
Lemma filterM_pure {A} (p : A -> LE L E bool) (f : A -> bool) xs lg :
  (forall x lg, exists lg', p x lg = (lg', inr (f x))) ->
  exists lg', filterM p xs lg = (lg', inr (List.filter f xs)).
Proof.
  intros Hp. revert lg. induction xs as [|x xs IH]; intros lg; simpl; [by eexists|].
  unfold bind. destruct (Hp x lg) as [lg1 ->]. destruct (IH lg1) as [lg2 ->].
  exists lg2. simpl. by destruct (f x).
Qed.

(** An invariant of every successful step holds after a successful fold. *)
Lemma foldM_invariant {A S} (I : S -> Prop) (f : A -> S -> LE L E S) xs :
  (forall x s lg lg' s', f x s lg = (lg', inr s') -> I s -> I s') ->
  forall s lg lg' s', foldM f xs s lg = (lg', inr s') -> I s -> I s'.
Proof.
  intros Hf. induction xs as [|x xs IH]; intros s lg lg' s' Hrun Hs.
  - by injection Hrun as <- <-.
  - simpl in Hrun. unfold bind in Hrun. destruct (f x s lg) as [lg1 [e|s1]] eqn:Hx; [done|].
  eapply IH; [exact Hrun|]. eapply Hf; eauto.
Qed.

Lemma foldM_app {A S} (f : A -> S -> LE L E S) xs ys s lg :
  foldM f (xs ++ ys) s lg = bind (foldM f xs s) (foldM f ys) lg.
Proof.
  revert s lg. induction xs as [|x xs IH]; intros s lg; simpl; [done|].
  pose proof (IH) as IH'. unfold bind in IH' |- *.
  destruct (f x s lg) as [lg' [e|s']]; [done|]. apply IH'.
Qed.

(** A loop whose body [g] returns whatever [f] returns when [f] returns
    normally returns what the loop of [f] returns when that one does. *)
Lemma foldM_inr_mono {A S} (f g : A -> S -> LE L E S) :
  (forall x s lg lg' s', f x s lg = (lg', inr s') -> g x s lg = (lg', inr s')) ->
  forall xs s lg lg' s', foldM f xs s lg = (lg', inr s') -> foldM g xs s lg = (lg', inr s').
Proof.
  intros Hfg xs. induction xs as [|x xs IH]; intros s lg lg' s' Hrun; [done|].
  simpl in *. apply bind_inr in Hrun as (lg1 & s1 & Hx & Hrest).
  rewrite (bind_inr_step _ _ _ _ _ (Hfg _ _ _ _ _ Hx)). by apply IH.
Qed.

(** Two runs that write the same log and throw the same exception, or
    return values related by [R]. *)
Definition res_rel {A B} (R : A -> B -> Prop) (r1 : list L * (E + A)) (r2 : list L * (E + B)) :
    Prop :=
  r1.1 = r2.1 /\
  match r1.2, r2.2 with
  | inl e1, inl e2 => e1 = e2
  | inr a, inr b => R a b
  | _, _ => False
  end.

Lemma res_rel_refl {A} (r : list L * (E + A)) : res_rel eq r r.
Proof. destruct r as [l [e|a]]; by split. Qed.

Lemma res_rel_eq {A} (r1 r2 : list L * (E + A)) : res_rel eq r1 r2 -> r1 = r2.
Proof. destruct r1 as [l1 [e1|a1]], r2 as [l2 [e2|a2]]; unfold res_rel; simpl; intros [-> H]; by subst. Qed.

Lemma res_rel_bind {A1 A2 B1 B2} (R : A1 -> A2 -> Prop) (R' : B1 -> B2 -> Prop)
    (c1 : LE L E A1) (c2 : LE L E A2) (k1 : A1 -> LE L E B1) (k2 : A2 -> LE L E B2) lg :
  res_rel R (c1 lg) (c2 lg) ->
  (forall a1 a2 lg', R a1 a2 -> res_rel R' (k1 a1 lg') (k2 a2 lg')) ->
  res_rel R' (bind c1 k1 lg) (bind c2 k2 lg).
Proof.
  unfold bind. destruct (c1 lg) as [l1 [e1|a1]], (c2 lg) as [l2 [e2|a2]];
    intros [Hl Hr] Hk; simpl in *; subst; first [done | by apply Hk].
Qed.

(** Two loops whose bodies agree up to [R] agree up to [R]. *)
Lemma foldM_sim {X S1 S2} (R : S1 -> S2 -> Prop)
    (f1 : X -> S1 -> LE L E S1) (f2 : X -> S2 -> LE L E S2) :
  (forall x s1 s2 lg, R s1 s2 -> res_rel R (f1 x s1 lg) (f2 x s2 lg)) ->
  forall xs s1 s2 lg, R s1 s2 -> res_rel R (foldM f1 xs s1 lg) (foldM f2 xs s2 lg).
Proof.
  intros Hf xs. induction xs as [|x xs IH]; intros s1 s2 lg Hs; simpl.
  - by split.
  - apply (res_rel_bind R); auto.
Qed.
End LogErrLemmas.

#[export] Hint Resolve framed_ret framed_throw framed_emit framed_bind framed_foldM : conv.

(** ** Shared lemmas on [List.filter] (the JS [Array.prototype.filter]) *)

Section Filter.
Context {A : Type}.

Lemma filter_sublist (p : A -> bool) (l : list A) : sublist (List.filter p l) l.
Proof.
  induction l as [|x l IH]; simpl; [constructor|].
  destruct (p x); by constructor.
Qed.

Lemma filter_filter_and (p q : A -> bool) (l : list A) :
  List.filter p (List.filter q l) = List.filter (fun x => q x && p x) l.
Proof.
  induction l as [|x l IH]; simpl; [done|].
  destruct (q x); simpl; [destruct (p x); simpl|]; by rewrite IH.
Qed.

Lemma filter_idem (p : A -> bool) (l : list A) :
  List.filter p (List.filter p l) = List.filter p l.
Proof.
  rewrite filter_filter_and. apply filter_ext. intros x. apply andb_diag.
Qed.

Lemma filter_keeps (p : A -> bool) (l : list A) x :
  In x l -> p x = true -> In x (List.filter p l).
Proof. intros Hin Hp. apply filter_In. auto. Qed.
End Filter.

(** An invariant of every step holds after a [fold_left]. *)
Lemma fold_left_invariant {A B} (P : B -> Prop) (f : B -> A -> B) (l : list A) b :
  P b -> (forall b x, P b -> P (f b x)) -> P (fold_left f l b).
Proof. intros Hb Hf. revert b Hb. induction l as [|x l IH]; simpl; auto. Qed.

#[export] Hint Rewrite @filter_idem @filter_filter_and : conv_rw.
#[export] Hint Resolve filter_sublist filter_keeps : conv.

(** ** Insertion-ordered string-keyed tables

    The shape shared by a JS object's own properties and by a JS [Map]
    with string keys: [t[k] = v] replaces an existing key in place and
    appends a new one, so iteration follows first insertion. *)

Section Table.
Context {V : Type}.
Implicit Types (t : list (string * V)) (k : string) (v : V).

Fixpoint tbl_get t k : option V :=
  match t with
  | [] => None
  | (k', v) :: t' => if String.eqb k k' then Some v else tbl_get t' k
  end.

Fixpoint tbl_set t k v : list (string * V) :=
  match t with
  | [] => [(k, v)]
  | (k', v') :: t' =>
      if String.eqb k k' then (k', v) :: t' else (k', v') :: tbl_set t' k v
  end.

Definition tbl_has t k : bool := existsb (fun kv => String.eqb k kv.1) t.

Lemma tbl_get_set_eq t k v : tbl_get (tbl_set t k v) k = Some v.
Proof.
  induction t as [|[k' v'] t IH]; simpl; [by rewrite String.eqb_refl|].
  destruct (String.eqb k k') eqn:E; simpl; [by rewrite E|by rewrite E].
Qed.

Lemma tbl_get_set_ne t k k2 v : k <> k2 -> tbl_get (tbl_set t k v) k2 = tbl_get t k2.
Proof.
  intros Hne. induction t as [|[k' v'] t IH]; simpl.
  - by rewrite (proj2 (String.eqb_neq k2 k) (not_eq_sym Hne)).
  - destruct (String.eqb k k') eqn:E; simpl; [|by rewrite IH].
  apply String.eqb_eq in E as ->.
  by rewrite (proj2 (String.eqb_neq k2 k') (not_eq_sym Hne)).
Qed.

Lemma tbl_has_cons k' v' t k : tbl_has ((k', v') :: t) k = String.eqb k k' || tbl_has t k.
Proof. reflexivity. Qed.

Lemma tbl_has_spec t k : tbl_has t k = true <-> k ∈ t.*1.
Proof.
  induction t as [|[k' v'] t IH]; simpl.
  - split; [done|]. intros Hin. by apply elem_of_nil in Hin.
  - rewrite orb_true_iff, elem_of_cons, <- IH, String.eqb_eq. done.
Qed.

Lemma tbl_has_get t k : tbl_has t k = true <-> is_Some (tbl_get t k).
Proof.
  induction t as [|[k' v'] t IH]; simpl; [split; [done|by intros []]|].
  destruct (String.eqb k k'); simpl; [split; eauto|done].
Qed.

Lemma tbl_set_keys t k v :
  (tbl_set t k v).*1 = if tbl_has t k then t.*1 else t.*1 ++ [k].
Proof.
  induction t as [|[k' v'] t IH]; [done|].
  rewrite tbl_has_cons. cbn [tbl_set]. destruct (String.eqb k k'); [done|].
  rewrite fmap_cons, IH. cbn [orb fst]. by destruct (tbl_has t k).
Qed.

(** Keys stay unique: a JS object or [Map] never holds a key twice. *)
Lemma tbl_keys_set t k v : NoDup t.*1 -> NoDup (tbl_set t k v).*1.
Proof.
  intros Hnd. rewrite tbl_set_keys. destruct (tbl_has t k) eqn:Hh; [done|].
  apply NoDup_app. split; [done|]. split; [|apply NoDup_singleton].
  intros x Hx Hy. apply list_elem_of_singleton in Hy as ->.
  apply tbl_has_spec in Hx. congruence.
Qed.

Lemma tbl_get_fold_set t src k :
  NoDup src.*1 ->
  tbl_get (fold_left (fun t kv => tbl_set t kv.1 kv.2) src t) k =
  match tbl_get src k with Some v => Some v | None => tbl_get t k end.
Proof.
  revert t. induction src as [|[k' v'] src IH]; intros t Hnd; simpl; [done|].
  inversion Hnd as [|? ? Hnin Hnd']; subst. rewrite IH by done.
  destruct (String.eqb k k') eqn:E.
  - apply String.eqb_eq in E as ->.
  destruct (tbl_get src k') eqn:Hg; [|apply tbl_get_set_eq].
  exfalso. apply Hnin, tbl_has_spec, tbl_has_get. eauto.
  - destruct (tbl_get src k); [done|]. apply tbl_get_set_ne.
  by apply String.eqb_neq, not_eq_sym in E.
Qed.
End Table.

#[export] Hint Rewrite @tbl_get_set_eq @tbl_set_keys : conv_rw.
#[export] Hint Resolve tbl_keys_set : conv.

(** ** Strings ([String.append] does not unfold by [simpl] under stdpp) *)

Lemma string_app_cons x (a b : string) : (String x a ++ b = String x (a ++ b))%string.
Proof. reflexivity. Qed.

Lemma string_app_assoc (a b c : string) : (a ++ b ++ c = (a ++ b) ++ c)%string.
Proof. induction a as [|x a IH]; [reflexivity|]. rewrite !string_app_cons. by rewrite IH. Qed.

Lemma string_app_nil_r (a : string) : (a ++ "" = a)%string.
Proof. induction a as [|x a IH]; [reflexivity|]. rewrite string_app_cons. by rewrite IH. Qed.

Lemma string_length_app (a b : string) :
  String.length (a ++ b) = (String.length a + String.length b)%nat.
Proof. induction a as [|x a IH]; [reflexivity|]. rewrite string_app_cons. simpl. by rewrite IH. Qed.

#[export] Hint Rewrite string_app_cons string_app_nil_r string_length_app : conv_rw.
