(* ===== verification/JsValue.v ===== *)
(** * JavaScript values as convert.js inspects them

    The values that flow through [convert]'s [options] argument, JS
    truthiness (for [options && options.debug] and [options &&
    options.prettier]), ordinary objects as ordered property lists with
    [Object.assign] and object spread (convert.js lines 69 and 89-93),
    [String.prototype.trim] (line 94) and the template literal [`${n}`] on
    the non-negative integers that Babel uses as offsets (line 48). *)

From S2P Require Import Prelude.
From Stdlib Require Import Ascii DecimalString DecimalN.

Inductive jsval : Type :=
| JUndefined
| JNull
| JBool (b : bool)
| JNum (z : Z)
| JStr (s : string)
| JArr (xs : list jsval)
| JObj (props : list (string * jsval)).

(** An object's own enumerable properties, in their order. *)
Abbreviation jsobj := (list (string * jsval)).

(** ToBoolean (ECMA-262 7.1.2); NaN is not among the modelled numbers. *)
Definition truthy (v : jsval) : bool :=
  match v with
  | JUndefined | JNull => false
  | JBool b => b
  | JNum z => negb (Z.eqb z 0)
  | JStr s => negb (String.eqb s "")
  | JArr _ | JObj _ => true
  end.

(** ** Number to string: [`${n}`] for a non-negative integer [n] *)

Definition js_N_to_string (n : N) : string :=
  NilEmpty.string_of_uint (N.to_uint n).

Definition js_nat_to_string (n : nat) : string := js_N_to_string (N.of_nat n).

(** ** Objects *)

(** [o[k]] for an own property; an absent one reads as [undefined]. *)
Definition obj_get (o : jsobj) (k : string) : jsval := default JUndefined (tbl_get o k).

(** The own enumerable properties copied by [Object.assign] and by a spread
    [{...v}]: [undefined], [null], booleans and numbers have none, a string
    has its characters under the keys "0", "1", ... *)
Definition own_props (v : jsval) : jsobj :=
  match v with
  | JObj o => o
  | JArr xs => imap (fun i x => (js_nat_to_string i, x)) xs
  | JStr s => imap (fun i c => (js_nat_to_string i, JStr (String c EmptyString)))
                   (list_ascii_of_string s)
  | _ => []
  end.

(** [Object.assign(target, source)] and [{...target, ...source}]. *)
Definition obj_assign (target : jsobj) (source : jsval) : jsobj :=
  fold_left (fun t kv => tbl_set t kv.1 kv.2) (own_props source) target.

(** [v.k] on a value that is not [undefined] or [null]. *)
Definition js_get (v : jsval) (k : string) : jsval :=
  match v with
  | JObj o => obj_get o k
  | _ => JUndefined
  end.

(** [v && v.k] as a condition. *)
Definition guarded_flag (v : jsval) (k : string) : bool :=
  truthy v && truthy (js_get v k).

(** ** [String.prototype.trim] on strings of 8-bit code units *)

Definition newline_char : ascii := "010"%char.

(** WhiteSpace and LineTerminator code units below 256: TAB, LF, VT, FF, CR,
    SPACE and NO-BREAK SPACE. *)
Definition is_js_space (c : ascii) : bool :=
  match N_of_ascii c with
  | 9 | 10 | 11 | 12 | 13 | 32 | 160 => true
  | _ => false
  end%N.

Fixpoint drop_space (l : list ascii) : list ascii :=
  match l with
  | [] => []
  | c :: l' => if is_js_space c then drop_space l' else l
  end.

Definition trim_list (l : list ascii) : list ascii :=
  rev (drop_space (rev (drop_space l))).

Definition js_trim (s : string) : string :=
  string_of_list_ascii (trim_list (list_ascii_of_string s)).

(** ** Laws of objects *)

(** [Object.assign(target, source)] reads a key from [source] when [source]
    has it and from [target] otherwise. *)
Lemma obj_get_assign (o src : jsobj) k :
  NoDup src.*1 ->
  obj_get (obj_assign o (JObj src)) k =
    if tbl_has src k then obj_get src k else obj_get o k.
Proof.
  intros Hnd. unfold obj_get, obj_assign; simpl. rewrite tbl_get_fold_set by done.
  destruct (tbl_get src k) eqn:E.
  - by rewrite (proj2 (tbl_has_get src k) (mk_is_Some _ _ E)).
  - destruct (tbl_has src k) eqn:Hh; [|done].
    apply tbl_has_get in Hh as [? Hv]. congruence.
Qed.

(** ** Laws of [trim] *)

Definition all_space (l : list ascii) : Prop := Forall (fun c => is_js_space c = true) l.

(** A list whose first and last code units are not white space. *)
Definition edge_clean (l : list ascii) : Prop :=
  (forall c, hd_error l = Some c -> is_js_space c = false) /\
  (forall c, hd_error (rev l) = Some c -> is_js_space c = false).

Lemma drop_space_split l :
  exists pre, l = pre ++ drop_space l /\ all_space pre /\
    (forall c, hd_error (drop_space l) = Some c -> is_js_space c = false).
Proof.
  induction l as [|c l IH]; simpl.
  - exists []. split; [done|]. split; [constructor|]. done.
  - destruct (is_js_space c) eqn:Hc.
    + destruct IH as (pre & Heq & Hall & Hhd). exists (c :: pre).
      split; [simpl; by f_equal|]. split; [by constructor|]. done.
    + exists []. split; [done|]. split; [constructor|]. by intros ? [= <-].
Qed.

Lemma drop_space_clean l :
  (forall c, hd_error l = Some c -> is_js_space c = false) -> drop_space l = l.
Proof. destruct l as [|c l]; simpl; [done|]. intros H. by rewrite (H c eq_refl). Qed.

Lemma all_space_rev l : all_space l -> all_space (rev l).
Proof. apply Forall_rev. Qed.

(** [trim] removes white space at both ends and nothing else. *)
Lemma trim_list_spec l :
  exists a b, l = a ++ trim_list l ++ b /\ all_space a /\ all_space b /\
    edge_clean (trim_list l).
Proof.
  destruct (drop_space_split l) as (a & Hl & Ha & Hhd).
  destruct (drop_space_split (rev (drop_space l))) as (b & Hm & Hb & Hhd2).
  unfold trim_list. set (m := drop_space l) in *. set (r := drop_space (rev m)) in *.
  assert (Hm' : m = rev r ++ rev b).
  { rewrite <- rev_app_distr, <- Hm. by rewrite rev_involutive. }
  exists a, (rev b). split; [by rewrite Hl, Hm' at 1|].
  split; [done|]. split; [by apply all_space_rev|]. split.
  - intros c Hc. apply Hhd. rewrite Hm'. destruct (rev r); [done|]. exact Hc.
  - rewrite rev_involutive. exact Hhd2.
Qed.

Lemma trim_list_clean l : edge_clean l -> trim_list l = l.
Proof.
  intros [Hh Ht]. unfold trim_list.
  rewrite (drop_space_clean l Hh), (drop_space_clean (rev l) Ht).
  apply rev_involutive.
Qed.

Lemma trim_list_idem l : trim_list (trim_list l) = trim_list l.
Proof.
  destruct (trim_list_spec l) as (? & ? & _ & _ & _ & Hc). by apply trim_list_clean.
Qed.

Lemma js_trim_list s : list_ascii_of_string (js_trim s) = trim_list (list_ascii_of_string s).
Proof. apply list_ascii_of_string_of_list_ascii. Qed.

(** ** [`${n}`] prints no colon, and reads back *)

Definition colon : ascii := ":"%char.

Lemma string_of_uint_no_colon d : colon ∉ list_ascii_of_string (NilEmpty.string_of_uint d).
Proof.
  induction d; simpl; try apply not_elem_of_nil;
    apply not_elem_of_cons; split; first [discriminate | assumption].
Qed.

Lemma js_N_to_string_no_colon n : colon ∉ list_ascii_of_string (js_N_to_string n).
Proof. apply string_of_uint_no_colon. Qed.

(** Reading a decimal numeral back, the inverse of [js_N_to_string]. *)
Definition N_of_js_string (s : string) : option N :=
  N.of_uint <$> NilEmpty.uint_of_string s.

Lemma N_of_js_string_roundtrip n : N_of_js_string (js_N_to_string n) = Some n.
Proof.
  unfold N_of_js_string, js_N_to_string. rewrite NilEmpty.usu. simpl.
  by rewrite DecimalN.Unsigned.of_to.
Qed.
