(* ===== verification/Ast.v ===== *)
(** * Babel's comments and nodes, the node store, and the range key

    The part of Babel's AST that convert.js reads or writes: a comment's
    [type], [start], [end] and [loc] (convert.js lines 36-38, 47, 63), a
    node's [loc] and its [leadingComments]/[trailingComments] (lines 34,
    38). Nodes are JS objects shared by reference between the tree and the
    entries of [commentsToNodesMap], so they live in a store [heap] indexed
    by references [nid]; an update through one reference is seen through
    every alias. The range key is the template literal [`${start}:${end}`]
    of line 48; [parse_range_key] reads it back, which shows that distinct
    ranges get distinct keys. *)

From S2P Require Import Prelude JsValue.
From Stdlib Require Import Ascii.

Inductive comment_type : Type := CommentLine | CommentBlock.

Record position : Type := { line : Z; column : Z }.

Record source_location : Type := { loc_start : position; loc_end : position }.

(** A comment token. [cloc] is [None] when the location metadata is
    missing, the defensive case of convert.js's [try]. *)
Record comment : Type := {
  ctype : comment_type;
  cvalue : string;
  cstart : N;
  cend : N;
  cloc : option source_location
}.

(** A node: its type, its location ([None] for nodes built by the handlers,
    which Babel creates without [loc]) and its comment arrays ([None] when
    the property is [undefined] or [null]). *)
Record node : Type := {
  ntype : string;
  nloc : option source_location;
  leadingComments : option (list comment);
  trailingComments : option (list comment)
}.

#[export] Instance comment_type_eq_dec : EqDecision comment_type.
Proof. solve_decision. Defined.
#[export] Instance position_eq_dec : EqDecision position.
Proof. solve_decision. Defined.
#[export] Instance source_location_eq_dec : EqDecision source_location.
Proof. solve_decision. Defined.
#[export] Instance comment_eq_dec : EqDecision comment.
Proof. solve_decision. Defined.

(** References to node objects, and the store they point into. *)
Definition nid : Type := positive.
Definition heap : Type := nid -> node.

(** [obj.p = v] through the reference [n]. *)
Definition heap_upd (h : heap) (n : nid) (v : node) : heap :=
  fun m => if decide (m = n) then v else h m.

(** [trailing.trailingComments = cs] (convert.js line 34). *)
Definition set_trailingComments (nd : node) (cs : option (list comment)) : node :=
  {| ntype := ntype nd; nloc := nloc nd;
     leadingComments := leadingComments nd; trailingComments := cs |}.

(** [`${start}:${end}`] (convert.js line 48). *)
Definition range_key (start end_ : N) : string :=
  (js_N_to_string start ++ ":" ++ js_N_to_string end_)%string.

Definition comment_key (c : comment) : string := range_key (cstart c) (cend c).

(** [comment.loc.start.line] when the location is present. *)
Definition comment_start_line (c : comment) : option Z :=
  (fun l => line (loc_start l)) <$> cloc c.

Definition node_start_line (nd : node) : option Z :=
  (fun l => line (loc_start l)) <$> nloc nd.

(** ** Reading a range key back *)

Fixpoint split_colon (l : list ascii) : option (list ascii * list ascii) :=
  match l with
  | [] => None
  | c :: l' =>
      if decide (c = colon) then Some ([], l')
      else (fun ab => (c :: ab.1, ab.2)) <$> split_colon l'
  end.

Definition parse_range_key (k : string) : option (N * N) :=
  ab ← split_colon (list_ascii_of_string k);
  s ← N_of_js_string (string_of_list_ascii ab.1);
  e ← N_of_js_string (string_of_list_ascii ab.2);
  Some (s, e).

(** ** Lemmas on the store *)

Lemma heap_upd_eq h n v : heap_upd h n v n = v.
Proof. unfold heap_upd. by rewrite decide_True. Qed.

Lemma heap_upd_ne h n m v : m <> n -> heap_upd h n v m = h m.
Proof. intros Hne. unfold heap_upd. by rewrite decide_False. Qed.

Lemma set_trailingComments_loc nd cs : nloc (set_trailingComments nd cs) = nloc nd.
Proof. reflexivity. Qed.

Lemma set_trailingComments_trailing nd cs : trailingComments (set_trailingComments nd cs) = cs.
Proof. reflexivity. Qed.

#[export] Hint Rewrite heap_upd_eq set_trailingComments_loc set_trailingComments_trailing : conv_rw.

(** ** Lemmas on the range key *)

Lemma list_ascii_of_string_app (s t : string) :
  list_ascii_of_string (s ++ t) = list_ascii_of_string s ++ list_ascii_of_string t.
Proof. induction s as [|c s IH]; simpl; [done|]. by rewrite IH. Qed.

Lemma list_ascii_of_colon t : list_ascii_of_string (":" ++ t) = colon :: list_ascii_of_string t.
Proof. reflexivity. Qed.

Lemma split_colon_app a b : colon ∉ a -> split_colon (a ++ colon :: b) = Some (a, b).
Proof.
  induction a as [|c a IH]; intros Hnin; cbn [split_colon app].
  - case_decide; [done|congruence].
  - apply not_elem_of_cons in Hnin as [Hc Ha]. case_decide; [congruence|].
    by rewrite IH.
Qed.

(** Reading a range key gives back the offsets it was made from. *)
Lemma parse_range_key_roundtrip s e : parse_range_key (range_key s e) = Some (s, e).
Proof.
  unfold parse_range_key, range_key.
  rewrite list_ascii_of_string_app, list_ascii_of_colon.
  rewrite split_colon_app by apply js_N_to_string_no_colon. simpl.
  rewrite !string_of_list_ascii_of_string, !N_of_js_string_roundtrip. done.
Qed.

(** ** Exceptions and [console.log] output of the pipeline *)

(** The exceptions of spec section 7: [ParseError] from the parser,
    [HandlerError] (node type and location) from a handler, [TypeError] from
    a property read on [undefined] in convert.js itself, [GenerationError]
    and [FormatterError] from the external generator and formatter,
    [RangeError] from the engine when the walk's recursion exhausts its
    call stack. *)
Inductive conv_error : Type :=
| ParseError (msg : string)
| HandlerError (node_type : string) (loc : option source_location)
| TypeError (msg : string)
| GenerationError (msg : string)
| FormatterError (msg : string)
| RangeError (msg : string).

(** [console.log(trailing)] (convert.js line 44) and the debug dump
    [console.log(JSON.stringify(ast, null, 4))] (line 78). *)
Inductive log_event : Type :=
| LogNode (n : nid)
| LogAst.

Abbreviation CM := (LE log_event conv_error).

(** C22 (roundtrip consequence, spec section 8): distinct comment ranges get
    distinct keys, so the map never files two comments under one key. *)
Theorem range_key_injective s e s' e' :
  range_key s e = range_key s' e' -> s = s' /\ e = e'.
Proof.
  intros Heq. pose proof (parse_range_key_roundtrip s e) as H.
  rewrite Heq, parse_range_key_roundtrip in H. by injection H as -> ->.
Qed.

Lemma range_key_injective_witness : range_key 28 38 = "28:38"%string /\ (28 = 28 /\ 38 = 38)%N.
Proof. split; [reflexivity|]. apply range_key_injective. reflexivity. Defined.
