(* ===== verification/CommentMap.v ===== *)
(** * [commentsToNodesMap]: the comment association map

    convert.js line 59 creates [new Map()]; the handlers fill it with one
    entry per comment key ["start:end"] whose value is [{leading, trailing}]
    (the nodes that carry the comment as leading and as trailing comment,
    either absent), and [fixComments] iterates it in insertion order (line
    30). The map is an insertion-ordered table of the prelude ([tbl_get],
    [tbl_set]); [cmap_wf] is the [Map] invariant that a key occurs once,
    and [both_claimed] is the guard [leading && trailing] of line 33. *)

From S2P Require Import Prelude JsValue Ast.

(** The value [{leading, trailing}] of an entry. *)
Record assoc : Type := { leading : option nid; trailing : option nid }.

Abbreviation cmap := (list (string * assoc)).

(** [new Map()] *)
Definition cmap_empty : cmap := [].

(** The invariant of a JS [Map]: a key occurs once. *)
Definition cmap_wf (m : cmap) : Prop := NoDup m.*1.

(** The entries whose comment sits between a leading and a trailing node,
    the ones [fixComments] acts on ([if (leading && trailing)], line 33). *)
Definition both_claimed (a : assoc) : bool :=
  match leading a, trailing a with
  | Some _, Some _ => true
  | _, _ => false
  end.

Lemma cmap_wf_empty : cmap_wf cmap_empty.
Proof. constructor. Qed.

Lemma cmap_wf_set m k a : cmap_wf m -> cmap_wf (tbl_set m k a).
Proof. apply tbl_keys_set. Qed.

#[export] Hint Resolve cmap_wf_empty cmap_wf_set : conv.
