(* ===== verification/State.v ===== *)
(** * The Conversion State and the objects a call allocates (convert.js 59, 67-72)

    [convert] allocates one JS [Map] ([const commentsToNodesMap = new Map()],
    line 59) and one [state] object (lines 67-72) whose field
    [commentsToNodesMap] holds a second reference to that same [Map]. The
    walk records comments through [state.commentsToNodesMap]; [fixComments]
    reads the [Map] through the local binding (line 75). Both are references
    to one object, so the [Map] objects live in a store [mstore] addressed by
    [mref], and [conv_state] holds a reference, not a copy. [world] is what
    the walk reads and writes: the AST's node store, the [Map] store and the
    [state] object. [world_ok] is its typing invariant: every [Map] of the
    store has unique keys, and [state.commentsToNodesMap] denotes an
    allocated [Map]. *)

From S2P Require Import Prelude JsValue Ast CommentMap.

(** References to JS [Map] objects, and the store of those objects. *)
Abbreviation mref := positive.
Abbreviation mstore := (gmap mref cmap).

(** [new Map()]: a reference not yet in use, bound to an empty map. *)
Definition new_map (ms : mstore) : mref * mstore :=
  let r := fresh (dom ms) in (r, <[r := cmap_empty]> ms).

(** The entries of the [Map] a reference denotes. *)
Definition map_at (ms : mstore) (r : mref) : cmap := default cmap_empty (ms !! r).

(** The [state] object of lines 67-72. [trailingLines] is [None] while the
    property has not been assigned ([undefined]). *)
Record conv_state : Type := {
  usedUtilityTypes : gset string;
  options : jsobj;
  commentsToNodesMap : mref;
  startLineToComments : gmap Z comment;
  trailingLines : option Z
}.

(** [Object.assign({ inlineUtilityTypes: false }, options)] (line 69). *)
Definition merge_options (opts : jsval) : jsobj :=
  obj_assign [("inlineUtilityTypes", JBool false)] opts.

(** Lines 67-72, given the reference of line 59 and the index of 61-64. *)
Definition init_state (opts : jsval) (r : mref) (idx : gmap Z comment) : conv_state :=
  {| usedUtilityTypes := ∅;
     options := merge_options opts;
     commentsToNodesMap := r;
     startLineToComments := idx;
     trailingLines := None |}.

(** What the walk reads and writes. *)
Record world : Type := { w_nodes : heap; w_maps : mstore; w_state : conv_state }.

(** The entries of the [Map] [state.commentsToNodesMap] currently denotes. *)
Definition state_map (w : world) : cmap := map_at (w_maps w) (commentsToNodesMap (w_state w)).

(** [state.commentsToNodesMap.set(...)]-style updates: replace the entries
    of the [Map] the state refers to, through the reference. *)
Definition update_state_map (f : cmap -> cmap) (w : world) : world :=
  {| w_nodes := w_nodes w;
     w_maps := <[commentsToNodesMap (w_state w) := f (state_map w)]> (w_maps w);
     w_state := w_state w |}.

(** The typing invariant of a world. *)
Definition world_ok (w : world) : Prop :=
  commentsToNodesMap (w_state w) ∈ dom (w_maps w) /\ map_Forall (fun _ => cmap_wf) (w_maps w).

(** The world with [state.usedUtilityTypes] emptied: what is left once
    the set of used utility types is ignored. *)
Definition forget_used (w : world) : world :=
  {| w_nodes := w_nodes w; w_maps := w_maps w;
     w_state := {| usedUtilityTypes := ∅; options := options (w_state w);
                   commentsToNodesMap := commentsToNodesMap (w_state w);
                   startLineToComments := startLineToComments (w_state w);
                   trailingLines := trailingLines (w_state w) |} |}.

(** ** The store of [Map] objects *)

Lemma new_map_fresh ms : (new_map ms).1 ∉ dom ms.
Proof. apply is_fresh. Qed.

Lemma map_at_new_map ms : map_at (new_map ms).2 (new_map ms).1 = cmap_empty.
Proof. unfold map_at, new_map; simpl. by rewrite lookup_insert_eq. Qed.

(** Allocating leaves every [Map] already allocated as it was. *)
Lemma map_at_new_map_old ms r : r ∈ dom ms -> map_at (new_map ms).2 r = map_at ms r.
Proof.
  intros Hr. pose proof (new_map_fresh ms) as Hf. unfold map_at, new_map in *; cbn [fst snd] in *.
  rewrite lookup_insert_ne; [done|]. intros <-. contradiction.
Qed.

Lemma map_at_insert_eq ms r m : map_at (<[r := m]> ms) r = m.
Proof. unfold map_at. by rewrite lookup_insert_eq. Qed.

Lemma map_at_insert_ne ms r r' m : r <> r' -> map_at (<[r := m]> ms) r' = map_at ms r'.
Proof. intros Hne. unfold map_at. by rewrite lookup_insert_ne. Qed.

#[export] Hint Rewrite map_at_new_map map_at_insert_eq : conv_rw.

Lemma new_map_ok ms : map_Forall (fun _ => cmap_wf) ms ->
  map_Forall (fun _ => cmap_wf) (new_map ms).2.
Proof. intros Hms. apply map_Forall_insert_2; [apply cmap_wf_empty|done]. Qed.

Lemma state_map_update f w : state_map (update_state_map f w) = f (state_map w).
Proof. unfold state_map, update_state_map; simpl. apply map_at_insert_eq. Qed.

(** An update that keeps a map's keys unique keeps the world well typed. *)
Lemma update_state_map_ok f w :
  (forall m, cmap_wf m -> cmap_wf (f m)) -> world_ok w -> world_ok (update_state_map f w).
Proof.
  intros Hf [Hr Hall]. unfold world_ok, update_state_map; simpl. split.
  - rewrite dom_insert_L. set_solver.
  - apply map_Forall_insert_2; [|done]. apply Hf. unfold state_map, map_at.
    apply elem_of_dom in Hr as [m Hm]. rewrite Hm. simpl. by apply (Hall _ _ Hm).
Qed.

(** Worlds that differ only in [usedUtilityTypes] stay so when the same
    update is applied to the map [state] refers to. *)
Lemma forget_used_update f w1 w2 :
  forget_used w1 = forget_used w2 ->
  forget_used (update_state_map f w1) = forget_used (update_state_map f w2).
Proof.
  destruct w1 as [n1 m1 [u1 o1 r1 i1 t1]], w2 as [n2 m2 [u2 o2 r2 i2 t2]].
  unfold forget_used, update_state_map, state_map; simpl. by intros [= -> -> -> -> -> ->].
Qed.

(** ** The options merge *)

(** C18 (functional, line 69): the merged options read a key from the
    caller's options when they have it, and otherwise [inlineUtilityTypes]
    reads [false] and every other key [undefined]; with no options at all
    the result is [{inlineUtilityTypes: false}]. *)
Theorem merge_options_get (o : jsobj) k :
  NoDup o.*1 ->
  obj_get (merge_options (JObj o)) k =
    (if tbl_has o k then obj_get o k
     else if String.eqb k "inlineUtilityTypes" then JBool false else JUndefined) /\
  merge_options JUndefined = [("inlineUtilityTypes", JBool false)].
Proof.
  intros Hnd. split; [|reflexivity]. unfold merge_options. rewrite obj_get_assign by done.
  destruct (tbl_has o k); [done|]. unfold obj_get. simpl. by destruct (String.eqb k _).
Qed.

Lemma merge_options_get_witness :
  obj_get (merge_options (JObj [("prettier", JBool true)])) "inlineUtilityTypes" = JBool false /\
  merge_options JUndefined = [("inlineUtilityTypes", JBool false)].
Proof. apply (merge_options_get [("prettier", JBool true)] "inlineUtilityTypes"). repeat constructor; set_solver. Defined.
