(* ===== verification/PositionIndex.v ===== *)
(** * The Position Index: [startLineToComments] (convert.js lines 61-64)

    [for (const comment of ast.comments) startLineToComments[comment.loc.start.line] = comment;]
    A plain object keyed by line number, so a later comment on the same
    line overwrites an earlier one (spec section 4.1, last write wins).
    Reading [comment.loc.start] on a comment without location throws a
    [TypeError] that nothing catches. The index is a [gmap Z comment]. *)

From S2P Require Import Prelude JsValue Ast.

(** One iteration of the loop (line 63). *)
Definition index_step (c : comment) (idx : gmap Z comment) : CM (gmap Z comment) :=
  match cloc c with
  | Some l => ret (<[line (loc_start l) := c]> idx)
  | None => throw (TypeError "Cannot read properties of undefined (reading 'start')")
  end.

(** Lines 61-64, starting from the empty object [{}]. *)
Definition index_comments (cs : list comment) : CM (gmap Z comment) :=
  foldM index_step cs ∅.

(** The last comment of [cs] that starts on line [ln]. *)
Definition last_on_line (cs : list comment) (ln : Z) : option comment :=
  hd_error (rev (List.filter (fun c => bool_decide (comment_start_line c = Some ln)) cs)).

Definition all_located (cs : list comment) : Prop := Forall (fun c => is_Some (cloc c)) cs.

#[export] Instance all_located_dec cs : Decision (all_located cs).
Proof. unfold all_located. apply _. Defined.

Lemma last_on_line_app cs c ln :
  last_on_line (cs ++ [c]) ln =
    if bool_decide (comment_start_line c = Some ln) then Some c else last_on_line cs ln.
Proof.
  unfold last_on_line. rewrite List.filter_app. simpl.
  case_bool_decide; simpl; [by rewrite rev_app_distr|by rewrite app_nil_r].
Qed.

Lemma index_fold_located cs : forall idx0 lg,
  all_located cs ->
  exists idx, foldM index_step cs idx0 lg = (lg, inr idx) /\
    forall ln, idx !! ln = match last_on_line cs ln with Some c => Some c | None => idx0 !! ln end.
Proof.
  induction cs as [|c cs IH] using rev_ind; intros idx0 lg Hall.
  - exists idx0. split; [done|]. intros ln. reflexivity.
  - apply Forall_app in Hall as [Hall [[l Hl] _]%Forall_cons].
    destruct (IH idx0 lg Hall) as (idx & Hrun & Hidx).
    exists (<[line (loc_start l) := c]> idx). split.
    + rewrite foldM_app. unfold bind. rewrite Hrun. simpl. unfold index_step, bind.
      by rewrite Hl.
    + intros ln. rewrite last_on_line_app. unfold comment_start_line. rewrite Hl. simpl.
      case_bool_decide as Heq.
      * injection Heq as <-. apply lookup_insert_eq.
      * rewrite lookup_insert_ne by congruence. apply Hidx.
Qed.

(** C16 (functional): when every comment has a location, the loop finishes
    and line [ln] maps to the last comment of [ast.comments] that starts on
    it, and to nothing when none does. *)
Theorem index_last_write_wins cs lg :
  all_located cs ->
  exists idx, index_comments cs lg = (lg, inr idx) /\ forall ln, idx !! ln = last_on_line cs ln.
Proof.
  intros Hall. destruct (index_fold_located cs ∅ lg Hall) as (idx & Hrun & Hidx).
  exists idx. split; [done|]. intros ln. rewrite Hidx. by destruct (last_on_line cs ln).
Qed.

(** A comment without location metadata makes the loop throw a
    [TypeError]: the read of [comment.loc.start] at line 63 is not guarded. *)
Lemma index_throws cs lg c :
  In c cs -> cloc c = None ->
  exists msg, index_comments cs lg = (lg, inl (TypeError msg)).
Proof.
  unfold index_comments. generalize (∅ : gmap Z comment) as idx.
  induction cs as [|c' cs IH]; intros idx Hin Hnone; [done|].
  simpl. unfold bind, index_step. destruct Hin as [<-|Hin].
  - rewrite Hnone. by eexists.
  - destruct (cloc c'); [|by eexists]. simpl. by apply IH.
Qed.

Lemma last_on_line_some cs ln c :
  last_on_line cs ln = Some c -> c ∈ cs /\ comment_start_line c = Some ln.
Proof.
  unfold last_on_line. intros Hhd.
  assert (Hin : In c (rev (List.filter (fun c => bool_decide (comment_start_line c = Some ln)) cs))).
  { destruct (rev _) as [|c' l]; simpl in Hhd; [done|]. injection Hhd as ->. by left. }
  apply in_rev, filter_In in Hin as [Hin Hb%bool_decide_eq_true].
  split; [by apply list_elem_of_In|done].
Qed.

(** A loop that completes has met no comment without location. *)
Lemma index_success_located cs lg lg' idx :
  index_comments cs lg = (lg', inr idx) -> all_located cs.
Proof.
  intros Hrun. destruct (decide (all_located cs)) as [|Hnot]; [done|].
  apply not_Forall_Exists in Hnot; [|intros; apply _].
  apply Exists_exists in Hnot as (c & Hin & Hc).
  destruct (cloc c) eqn:Hl; [exfalso; apply Hc; rewrite Hl; by eexists|].
  destruct (index_throws cs lg c (proj1 (list_elem_of_In _ _) Hin) Hl) as [msg Hthrow]. congruence.
Qed.

(** C28 (type): whenever the loop of lines 61-64 completes, every entry of
    [startLineToComments] is a comment of [ast.comments] stored under the
    line on which that comment starts. *)
Theorem index_entries_typed cs lg lg' idx :
  index_comments cs lg = (lg', inr idx) ->
  map_Forall (fun ln c => c ∈ cs /\ comment_start_line c = Some ln) idx.
Proof.
  intros Hrun. destruct (index_fold_located cs ∅ lg (index_success_located _ _ _ _ Hrun))
    as (idx' & Hrun' & Hidx).
  unfold index_comments in Hrun. rewrite Hrun' in Hrun. injection Hrun as <- <-.
  intros ln c Hc. rewrite Hidx in Hc. destruct (last_on_line cs ln) eqn:Hl.
  - injection Hc as <-. by apply last_on_line_some.
  - by rewrite lookup_empty in Hc.
Qed.

Module IndexExample.
Definition at_line (l : Z) : source_location :=
  {| loc_start := {| line := l; column := 0 |}; loc_end := {| line := l; column := 9 |} |}.
Definition first : comment :=
  {| ctype := CommentBlock; cvalue := " a "; cstart := 0; cend := 7; cloc := Some (at_line 1) |}.
Definition second : comment :=
  {| ctype := CommentLine; cvalue := " b"; cstart := 20; cend := 24; cloc := Some (at_line 1) |}.
Definition third : comment :=
  {| ctype := CommentLine; cvalue := " c"; cstart := 30; cend := 34; cloc := Some (at_line 2) |}.
Definition unlocated : comment :=
  {| ctype := CommentLine; cvalue := " d"; cstart := 40; cend := 44; cloc := None |}.
End IndexExample.

Import IndexExample.

(** Two comments start on line 1: the later one is indexed. *)
Example index_collision :
  snd (index_comments [first; second; third] []) = inr (<[2%Z := third]> (<[1%Z := second]> ∅)).
Proof. vm_compute. reflexivity. Qed.

Lemma index_last_write_wins_witness :
  exists idx, index_comments [first; second; third] [] = ([], inr idx) /\
    forall ln, idx !! ln = last_on_line [first; second; third] ln.
Proof. apply index_last_write_wins. vm_compute. repeat constructor; eexists; reflexivity. Defined.

Example index_throws_example :
  exists msg, index_comments [first; unlocated; third] [] = ([], inl (TypeError msg)).
Proof. apply (index_throws _ _ unlocated); [simpl; by right; left|reflexivity]. Qed.

Lemma index_entries_typed_witness :
  map_Forall (fun ln c => c ∈ [first; second; third] /\ comment_start_line c = Some ln)
    (<[2%Z := third]> (<[1%Z := second]> (∅ : gmap Z comment))).
Proof. apply (index_entries_typed _ [] []). vm_compute. reflexivity. Defined.
