(* ===== verification/Reconciler.v ===== *)
(** * The Comment Reconciler: [fixComments] (convert.js lines 29-53)

    [fixComments] walks [commentsToNodesMap] in insertion order. For an
    entry [key -> {leading, trailing}] with both nodes present it replaces
    [trailing.trailingComments] by the comments that pass the filter
    callback: a line comment on the trailing node's start line is kept, and
    otherwise a comment is kept unless its key is [key]. Reading [loc]
    on a comment or node without location throws inside the [try], which
    logs [trailing] and falls through to the key test.

    Section [Model] translates the code. [fixComments_spec] states what the
    whole loop computes, node by node, and the theorems show that
    [fixComments] refines it, that it fails exactly when a trailing node has
    no [trailingComments] array, that it is idempotent, that the order of
    the map's entries does not matter, and what happens to same-line,
    claimed and malformed comments. *)

From S2P Require Import Prelude JsValue Ast CommentMap.
From Stdlib Require Import Permutation Morphisms.

Section Model.

(** The filter callback of lines 35-49 for the entry [key] whose
    [trailing] is the reference [t] to the object [tn]. *)
Definition fix_filter_cb (key : string) (t : nid) (tn : node) (c : comment) : CM bool :=
  same <- match ctype c with
          | CommentLine =>
              match comment_start_line c, node_start_line tn with
              | Some cl, Some tl => ret (Z.eqb cl tl)
              | _, _ => emit (LogNode t) ;;; ret false
              end
          | CommentBlock => ret false
          end ;;
  if same then ret true
  else ret (negb (String.eqb (comment_key c) key)).

(** One iteration of the [for ... of] loop (lines 31-51). *)
Definition fix_entry (kv : string * assoc) (h : heap) : CM heap :=
  let '(key, value) := kv in
  match leading value, trailing value with
  | Some _, Some t =>
      match trailingComments (h t) with
      | None => throw (TypeError "Cannot read properties of undefined (reading 'filter')")
      | Some cs =>
          cs' <- filterM (fix_filter_cb key t (h t)) cs ;;
          ret (heap_upd h t (set_trailingComments (h t) (Some cs')))
      end
  | _, _ => ret h
  end.

Definition fixComments (m : cmap) (h : heap) : CM heap := foldM fix_entry m h.

End Model.

(** ** What the loop computes *)

(** A line comment that starts on the start line of the node it trails. *)
Definition same_line (tn : node) (c : comment) : bool :=
  match ctype c, comment_start_line c, node_start_line tn with
  | CommentLine, Some cl, Some tl => Z.eqb cl tl
  | _, _, _ => false
  end.

(** The decision of the callback for the entry [key]. *)
Definition keep_for (key : string) (tn : node) (c : comment) : bool :=
  same_line tn c || negb (String.eqb (comment_key c) key).

(** An entry with both nodes whose trailing node is [t]. *)
Definition targets (t : nid) (kv : string * assoc) : bool :=
  both_claimed kv.2 && bool_decide (trailing kv.2 = Some t).

(** The comment is filed under an entry that both claims it and trails [t]. *)
Definition claimed_at (m : cmap) (t : nid) (c : comment) : bool :=
  existsb (fun kv => targets t kv && String.eqb kv.1 (comment_key c)) m.

(** The store after reconciliation, node by node. *)
Definition fixComments_spec (m : cmap) (h : heap) : heap :=
  fun t =>
    match trailingComments (h t) with
    | Some cs =>
        set_trailingComments (h t)
          (Some (List.filter (fun c => same_line (h t) c || negb (claimed_at m t c)) cs))
    | None => h t
    end.

(** The precondition under which the loop does not throw: every trailing
    node of an entry with both nodes has a [trailingComments] array. *)
Definition fix_ok (m : cmap) (h : heap) : Prop :=
  forall kv t, In kv m -> targets t kv = true -> is_Some (trailingComments (h t)).

(** Pointwise equality of stores. *)
Definition heap_eq (h1 h2 : heap) : Prop := forall t, h1 t = h2 t.

#[export] Instance heap_eq_equiv : Equivalence heap_eq.
Proof. split; repeat intro; congruence. Qed.

(** ** The callback and one iteration *)

Lemma fix_filter_cb_value key t tn c lg :
  exists lg', fix_filter_cb key t tn c lg = (lg', inr (keep_for key tn c)).
Proof.
  unfold fix_filter_cb, keep_for, same_line.
  destruct (ctype c); [|by eexists].
  destruct (comment_start_line c), (node_start_line tn); simpl;
    try (by eexists); destruct (Z.eqb _ _); by eexists.
Qed.

Lemma targets_both t kv : targets t kv = true ->
  exists l, leading kv.2 = Some l /\ trailing kv.2 = Some t.
Proof.
  unfold targets, both_claimed. destruct kv as [k [[l|] [t'|]]]; simpl; try done.
  intros H%bool_decide_eq_true. simplify_eq. eauto.
Qed.

Lemma fix_entry_skip kv h lg : both_claimed kv.2 = false -> fix_entry kv h lg = (lg, inr h).
Proof.
  destruct kv as [k [[l|] [t|]]]; unfold both_claimed; simpl; done.
Qed.

Lemma fix_entry_throw k a t h lg :
  both_claimed a = true -> trailing a = Some t -> trailingComments (h t) = None ->
  exists msg, fix_entry (k, a) h lg = (lg, inl (TypeError msg)).
Proof.
  destruct a as [[l|] [t'|]]; unfold both_claimed; simpl; try done.
  intros _ [= ->] ->. by eexists.
Qed.

Lemma fix_entry_filter k a t h cs lg :
  both_claimed a = true -> trailing a = Some t -> trailingComments (h t) = Some cs ->
  exists lg', fix_entry (k, a) h lg =
    (lg', inr (heap_upd h t (set_trailingComments (h t)
                 (Some (List.filter (keep_for k (h t)) cs))))).
Proof.
  destruct a as [[l|] [t'|]]; unfold both_claimed; simpl; try done.
  intros _ [= ->] ->. unfold bind.
  destruct (filterM_pure (fix_filter_cb k t (h t)) (keep_for k (h t)) cs lg) as [lg' ->].
  { intros c lg0. apply fix_filter_cb_value. }
  by eexists.
Qed.

(** ** The specification, entry by entry *)

Lemma same_line_set nd cs : same_line (set_trailingComments nd cs) = same_line nd.
Proof. reflexivity. Qed.

Lemma set_trailingComments_twice nd x y :
  set_trailingComments (set_trailingComments nd x) y = set_trailingComments nd y.
Proof. reflexivity. Qed.

Lemma set_trailingComments_id nd cs : trailingComments nd = cs -> set_trailingComments nd cs = nd.
Proof. destruct nd; simpl. by intros ->. Qed.

Lemma claimed_at_cons kv m t c :
  claimed_at (kv :: m) t c = (targets t kv && String.eqb kv.1 (comment_key c)) || claimed_at m t c.
Proof. reflexivity. Qed.

Lemma targets_other k a t0 t : trailing a = Some t0 -> t <> t0 -> targets t (k, a) = false.
Proof.
  intros Ht Hne. unfold targets; simpl. rewrite Ht.
  rewrite bool_decide_false; [apply andb_false_r|congruence].
Qed.

Lemma targets_self k a t0 : both_claimed a = true -> trailing a = Some t0 -> targets t0 (k, a) = true.
Proof. intros Hb Ht. unfold targets; simpl. rewrite Hb, Ht. by rewrite bool_decide_true. Qed.

#[export] Hint Rewrite same_line_set set_trailingComments_twice claimed_at_cons : conv_rw.

Lemma fixComments_spec_nil h : heap_eq (fixComments_spec [] h) h.
Proof.
  intros t. unfold fixComments_spec. destruct (trailingComments (h t)) as [cs|] eqn:E; [|done].
  apply set_trailingComments_id. rewrite E. f_equal. clear E.
  induction cs as [|c cs IH]; simpl; [done|]. rewrite orb_true_r. simpl. by f_equal.
Qed.

(** An entry without both nodes changes nothing. *)
Lemma fixComments_spec_skip k a m h :
  both_claimed a = false ->
  heap_eq (fixComments_spec m h) (fixComments_spec ((k, a) :: m) h).
Proof.
  intros Hb t. unfold fixComments_spec. destruct (trailingComments (h t)); [|done].
  do 2 f_equal. apply filter_ext. intros c.
  rewrite claimed_at_cons. unfold targets; cbn [snd]. rewrite Hb. reflexivity.
Qed.

(** An entry with both nodes filters its trailing node once. *)
Lemma fixComments_spec_step k a t0 cs m h :
  both_claimed a = true -> trailing a = Some t0 -> trailingComments (h t0) = Some cs ->
  heap_eq
    (fixComments_spec m (heap_upd h t0 (set_trailingComments (h t0)
                                         (Some (List.filter (keep_for k (h t0)) cs)))))
    (fixComments_spec ((k, a) :: m) h).
Proof.
  intros Hb Ht Hcs t. unfold fixComments_spec.
  destruct (decide (t = t0)) as [->|Hne].
  - rewrite heap_upd_eq, Hcs. autorewrite with conv_rw. simpl.
    do 2 f_equal. apply filter_ext. intros c.
    rewrite (targets_self k a t0 Hb Ht). unfold keep_for; simpl.
    rewrite (String.eqb_sym k).
    by destruct (same_line (h t0) c), (String.eqb (comment_key c) k), (claimed_at m t0 c).
  - rewrite heap_upd_ne by done. destruct (trailingComments (h t)); [|done].
    do 2 f_equal. apply filter_ext. intros c.
    by rewrite claimed_at_cons, (targets_other k a t0 t Ht Hne).
Qed.

Lemma claimed_at_perm m m' t c : Permutation m m' -> claimed_at m t c = claimed_at m' t c.
Proof.
  induction 1; rewrite ?claimed_at_cons; try congruence.
  destruct (_ && _), (_ && _); simpl; done.
Qed.

(** The specification respects reordering of the map and pointwise
    equality of the store, so [rewrite] works under it. *)
#[export] Instance fixComments_spec_proper :
  Proper (@Permutation _ ==> heap_eq ==> heap_eq) fixComments_spec.
Proof.
  intros m m' Hm h h' Hh t. unfold fixComments_spec. rewrite (Hh t).
  destruct (trailingComments (h' t)); [|done].
  do 2 f_equal. apply filter_ext. intros c. by rewrite (claimed_at_perm m m' t c Hm).
Qed.

Lemma fixComments_spec_idem m h :
  heap_eq (fixComments_spec m (fixComments_spec m h)) (fixComments_spec m h).
Proof.
  intros t. unfold fixComments_spec.
  destruct (trailingComments (h t)) as [cs|] eqn:E; [|by rewrite E].
  rewrite set_trailingComments_trailing; cbn iota beta.
  by rewrite same_line_set, set_trailingComments_twice, filter_idem.
Qed.

Lemma fixComments_spec_some m h t :
  is_Some (trailingComments (fixComments_spec m h t)) <-> is_Some (trailingComments (h t)).
Proof.
  unfold fixComments_spec. destruct (trailingComments (h t)) eqn:E; [|by rewrite E].
  simpl. split; eauto.
Qed.

(** A same-line line comment survives the specification's filter. *)
Lemma spec_keeps_same_line m h t cs c ln :
  trailingComments (h t) = Some cs -> In c cs ->
  ctype c = CommentLine -> comment_start_line c = Some ln -> node_start_line (h t) = Some ln ->
  exists cs', trailingComments (fixComments_spec m h t) = Some cs' /\ In c cs'.
Proof.
  intros Hcs Hin Hty Hc Hn. unfold fixComments_spec. rewrite Hcs. eexists. split; [reflexivity|].
  apply filter_keeps; [done|]. unfold same_line. rewrite Hty, Hc, Hn, Z.eqb_refl. done.
Qed.

(** ** The three outcomes of one iteration *)

Inductive fix_entry_view (kv : string * assoc) (h : heap) (lg : list log_event) : Prop :=
| FixSkip :
    both_claimed kv.2 = false -> fix_entry kv h lg = (lg, inr h) -> fix_entry_view kv h lg
| FixFilter t cs lg' :
    targets t kv = true -> trailingComments (h t) = Some cs ->
    fix_entry kv h lg =
      (lg', inr (heap_upd h t (set_trailingComments (h t)
                                 (Some (List.filter (keep_for kv.1 (h t)) cs))))) ->
    fix_entry_view kv h lg
| FixThrow t msg :
    targets t kv = true -> trailingComments (h t) = None ->
    fix_entry kv h lg = (lg, inl (TypeError msg)) -> fix_entry_view kv h lg.

Lemma fix_entry_viewP kv h lg : fix_entry_view kv h lg.
Proof.
  destruct kv as [k a]. destruct (both_claimed a) eqn:Hb.
  - assert (exists t, trailing a = Some t) as [t Ht].
    { unfold both_claimed in Hb. destruct (leading a), (trailing a); by eauto. }
    pose proof (targets_self k a t Hb Ht) as Htg.
    destruct (trailingComments (h t)) as [cs|] eqn:Hcs.
    + destruct (fix_entry_filter k a t h cs lg Hb Ht Hcs) as [lg' H]. by eapply FixFilter.
    + destruct (fix_entry_throw k a t h lg Hb Ht Hcs) as [e H]. by eapply FixThrow.
  - apply FixSkip; [done|]. by apply fix_entry_skip.
Qed.

Lemma targets_fun t t' kv : targets t kv = true -> targets t' kv = true -> t = t'.
Proof.
  intros (? & _ & H1)%targets_both (? & _ & H2)%targets_both. congruence.
Qed.

Lemma targets_claimed t kv : targets t kv = true -> both_claimed kv.2 = true.
Proof. unfold targets. by intros [? _]%andb_prop. Qed.

Lemma fixComments_cons kv m h lg :
  fixComments (kv :: m) h lg = bind (fix_entry kv h) (fixComments m) lg.
Proof. reflexivity. Qed.

Lemma fix_ok_tail kv m h : fix_ok (kv :: m) h -> fix_ok m h.
Proof. intros Hok kv' t Hin. apply Hok. by right. Qed.

Lemma fix_ok_filtered m h t x : fix_ok m h -> fix_ok m (heap_upd h t (set_trailingComments (h t) (Some x))).
Proof.
  intros Hok kv t' Hin Htg. destruct (decide (t' = t)) as [->|Hne].
  - rewrite heap_upd_eq. simpl. eauto.
  - rewrite heap_upd_ne by done. eauto.
Qed.

(** ** Refinement: the loop computes [fixComments_spec] *)

Lemma fixComments_sound m : forall h lg lg' h',
  fixComments m h lg = (lg', inr h') -> heap_eq h' (fixComments_spec m h).
Proof.
  induction m as [|kv m IH]; intros h lg lg' h' Hrun.
  - injection Hrun as <- <-. symmetry. apply fixComments_spec_nil.
  - rewrite fixComments_cons in Hrun. unfold bind in Hrun.
    destruct (fix_entry_viewP kv h lg) as [Hb Hfe|t cs lg1 Htg Hcs Hfe|t e Htg Hcs Hfe];
      rewrite Hfe in Hrun; [| |discriminate].
    + rewrite (IH _ _ _ _ Hrun). destruct kv. by apply fixComments_spec_skip.
    + rewrite (IH _ _ _ _ Hrun). destruct kv as [k a].
      destruct (targets_both _ _ Htg) as (? & _ & Ht).
      apply fixComments_spec_step; [exact (targets_claimed _ _ Htg)|done|done].
Qed.

Lemma fixComments_total m : forall h lg,
  fix_ok m h -> exists lg' h', fixComments m h lg = (lg', inr h').
Proof.
  induction m as [|kv m IH]; intros h lg Hok; [by do 2 eexists|].
  rewrite fixComments_cons. unfold bind.
  destruct (fix_entry_viewP kv h lg) as [Hb Hfe|t cs lg1 Htg Hcs Hfe|t e Htg Hcs Hfe];
    rewrite Hfe.
  - apply IH. by eapply fix_ok_tail.
  - apply IH. apply fix_ok_filtered. by eapply fix_ok_tail.
  - destruct (Hok kv t (or_introl eq_refl) Htg) as [? Hsome]. congruence.
Qed.

Lemma fixComments_throws m : forall h lg,
  (exists kv t, In kv m /\ targets t kv = true /\ trailingComments (h t) = None) ->
  exists lg' msg, fixComments m h lg = (lg', inl (TypeError msg)).
Proof.
  induction m as [|kv m IH]; intros h lg (kv' & t' & Hin & Htg' & Hnone); [done|].
  rewrite fixComments_cons. unfold bind.
  destruct (fix_entry_viewP kv h lg) as [Hb Hfe|t cs lg1 Htg Hcs Hfe|t e Htg Hcs Hfe].
  - rewrite Hfe. apply IH. exists kv', t'. destruct Hin as [<-|Hin]; [|done].
    rewrite (targets_claimed _ _ Htg') in Hb. discriminate.
  - rewrite Hfe. apply IH. exists kv', t'.
    assert (t' <> t) as Hne by congruence.
    destruct Hin as [<-|Hin]; [by rewrite (targets_fun _ _ _ Htg' Htg) in Hne|].
    by rewrite heap_upd_ne.
  - rewrite Hfe. by do 2 eexists.
Qed.

Lemma fixComments_success_ok m h lg lg' h' :
  fixComments m h lg = (lg', inr h') -> fix_ok m h.
Proof.
  intros Hrun kv t Hin Htg. destruct (trailingComments (h t)) eqn:E; [by eexists|].
  destruct (fixComments_throws m h lg) as (? & ? & H); [by exists kv, t|]. congruence.
Qed.

(** The precondition as a boolean test. *)
Definition fix_okb (m : cmap) (h : heap) : bool :=
  forallb (fun kv => match both_claimed kv.2, trailing kv.2 with
                     | true, Some t => bool_decide (is_Some (trailingComments (h t)))
                     | _, _ => true
                     end) m.

Lemma fix_okb_spec m h : fix_okb m h = true -> fix_ok m h.
Proof.
  intros Hb kv t Hin Htg. unfold fix_okb in Hb. rewrite forallb_forall in Hb.
  specialize (Hb kv Hin). destruct (targets_both _ _ Htg) as (? & _ & Ht).
  rewrite (targets_claimed _ _ Htg), Ht in Hb. by apply bool_decide_eq_true in Hb.
Qed.

(** ** Properties of [fixComments] *)

(** C1 (refinement): when every trailing node of an entry with both nodes
    has a [trailingComments] array, [fixComments] runs to completion and the
    store it leaves is [fixComments_spec]: each node's trailing comments are
    filtered, in place, to those that are same-line line comments or that
    no entry with both nodes trailing this node has filed under their key. *)
Theorem fixComments_refines m h lg :
  fix_ok m h ->
  exists lg' h', fixComments m h lg = (lg', inr h') /\ heap_eq h' (fixComments_spec m h).
Proof.
  intros Hok. destruct (fixComments_total m h lg Hok) as (lg' & h' & Hrun).
  exists lg', h'. split; [done|]. by eapply fixComments_sound.
Qed.

(** C2 (safety): a line comment that starts on the start line of the node
    it trails is still among that node's trailing comments after
    [fixComments], whatever the map holds. *)
Theorem fixComments_keeps_same_line m h lg lg' h' t cs c ln :
  fixComments m h lg = (lg', inr h') ->
  trailingComments (h t) = Some cs -> In c cs ->
  ctype c = CommentLine -> comment_start_line c = Some ln -> node_start_line (h t) = Some ln ->
  exists cs', trailingComments (h' t) = Some cs' /\ In c cs'.
Proof.
  intros Hrun. rewrite (fixComments_sound m h lg lg' h' Hrun t). apply spec_keeps_same_line.
Qed.

(** C4 (idempotence): running [fixComments] again on the store it produced,
    with the same map, succeeds and changes nothing. *)
Theorem fixComments_idempotent m h lg lg1 h1 :
  fixComments m h lg = (lg1, inr h1) ->
  exists lg2 h2, fixComments m h1 lg1 = (lg2, inr h2) /\ heap_eq h2 h1.
Proof.
  intros Hrun. pose proof (fixComments_sound _ _ _ _ _ Hrun) as Hs.
  assert (Hok1 : fix_ok m h1).
  { intros kv t Hin Htg. rewrite (Hs t). apply fixComments_spec_some.
    by eapply (fixComments_success_ok m h lg lg1 h1). }
  destruct (fixComments_total m h1 lg1 Hok1) as (lg2 & h2 & Hrun2).
  exists lg2, h2. split; [done|].
  rewrite (fixComments_sound _ _ _ _ _ Hrun2), Hs. apply fixComments_spec_idem.
Qed.

(** C5 (functional, spec scenario 2): a comment filed under an entry that
    has both a leading node and the trailing node [t], and that is not a
    same-line line comment of [t], is gone from [t]'s trailing comments
    afterwards, while every node's leading comments are untouched. *)
Theorem fixComments_drops_claimed m h lg lg' h' t a c :
  fixComments m h lg = (lg', inr h') ->
  In (comment_key c, a) m -> both_claimed a = true -> trailing a = Some t ->
  same_line (h t) c = false ->
  (forall cs', trailingComments (h' t) = Some cs' -> ~ In c cs') /\
  (forall t', leadingComments (h' t') = leadingComments (h t')).
Proof.
  intros Hrun Hin Hb Ht Hsl. pose proof (fixComments_sound _ _ _ _ _ Hrun) as Hs.
  split.
  - intros cs'. rewrite (Hs t). unfold fixComments_spec.
    destruct (trailingComments (h t)) as [cs|] eqn:E; [|rewrite E; discriminate].
    intros [= <-] [_ Hkeep]%filter_In. rewrite Hsl in Hkeep.
    assert (claimed_at m t c = true) as Hcl; [|by rewrite Hcl in Hkeep].
    apply existsb_exists. exists (comment_key c, a). split; [done|].
    rewrite (targets_self _ _ _ Hb Ht). apply String.eqb_refl.
  - intros t'. rewrite (Hs t'). unfold fixComments_spec.
    by destruct (trailingComments (h t')).
Qed.

(** C6 (equivalence): the order in which the map's entries are visited
    does not matter: any permutation of the map gives the same store. *)
Theorem fixComments_order_independent m m' h lg lg1 h1 :
  Permutation m m' -> fixComments m h lg = (lg1, inr h1) ->
  exists lg2 h2, fixComments m' h lg = (lg2, inr h2) /\ heap_eq h2 h1.
Proof.
  intros Hp Hrun. pose proof (fixComments_success_ok _ _ _ _ _ Hrun) as Hok.
  assert (Hok' : fix_ok m' h).
  { intros kv t Hin. apply Hok. by apply (Permutation_in kv (Permutation_sym Hp)). }
  destruct (fixComments_total m' h lg Hok') as (lg2 & h2 & Hrun2).
  exists lg2, h2. split; [done|].
  rewrite (fixComments_sound _ _ _ _ _ Hrun2), (fixComments_sound _ _ _ _ _ Hrun), Hp.
  reflexivity.
Qed.

(** C8 (error): if some entry with both nodes trails a node whose
    [trailingComments] is absent, [fixComments] throws a [TypeError]: the
    call [trailing.trailingComments.filter] (line 34) has no guard. *)
Theorem fixComments_throws_on_missing_array m h lg k a t :
  In (k, a) m -> both_claimed a = true -> trailing a = Some t ->
  trailingComments (h t) = None ->
  exists lg' msg, fixComments m h lg = (lg', inl (TypeError msg)).
Proof.
  intros Hin Hb Ht Hn. apply fixComments_throws.
  exists (k, a), t. split; [done|]. split; [|done]. by apply targets_self.
Qed.

(** C9 (error, defensive path): when a line comment or its trailing node has
    no location, reading [loc.start.line] throws inside the [try]; the
    callback logs the trailing node and decides by the key test alone, so
    the comment is dropped only from the entry filed under its own key. *)
Theorem fix_filter_cb_malformed key t tn c lg :
  ctype c = CommentLine -> cloc c = None \/ nloc tn = None ->
  fix_filter_cb key t tn c lg = (lg ++ [LogNode t], inr (negb (String.eqb (comment_key c) key))).
Proof.
  intros Hty Hloc. unfold fix_filter_cb, comment_start_line, node_start_line.
  rewrite Hty. destruct Hloc as [-> | ->]; [|destruct (cloc c)]; reflexivity.
Qed.

(** C23 (invariant): [fixComments] keeps each node's trailing comments in
    their order and only removes some: the new array is a sublist of the
    old one, and an absent array stays absent. *)
Theorem fixComments_sublist m h lg lg' h' t :
  fixComments m h lg = (lg', inr h') ->
  match trailingComments (h t), trailingComments (h' t) with
  | Some cs, Some cs' => sublist cs' cs
  | None, None => True
  | _, _ => False
  end.
Proof.
  intros Hrun. rewrite (fixComments_sound _ _ _ _ _ Hrun t). unfold fixComments_spec.
  destruct (trailingComments (h t)) as [cs|] eqn:E; [|by rewrite E].
  apply filter_sublist.
Qed.

(** C24 (invariant): [fixComments] writes nothing but [trailingComments]:
    every node keeps its type, location and leading comments. *)
Theorem fixComments_frame m h lg lg' h' t :
  fixComments m h lg = (lg', inr h') ->
  h' t = set_trailingComments (h t) (trailingComments (h' t)).
Proof.
  intros Hrun. rewrite (fixComments_sound _ _ _ _ _ Hrun t). unfold fixComments_spec.
  destruct (trailingComments (h t)) as [cs|] eqn:E; [done|].
  symmetry. by apply set_trailingComments_id.
Qed.

(** ** A concrete run: spec scenarios 1 and 2

    [stmt1] on line 1 ends with [// note] (offsets 20-27, line 1); the
    comment [// between] (offsets 28-38, line 2) trails [stmt1] and leads
    [stmt2] on line 3. *)

Module Scenario.
Definition loc_at (l : Z) : source_location :=
  {| loc_start := {| line := l; column := 0 |}; loc_end := {| line := l; column := 30 |} |}.

Definition note : comment :=
  {| ctype := CommentLine; cvalue := " note"; cstart := 20; cend := 27; cloc := Some (loc_at 1) |}.
Definition between : comment :=
  {| ctype := CommentLine; cvalue := " between"; cstart := 28; cend := 38; cloc := Some (loc_at 2) |}.
Definition broken : comment :=
  {| ctype := CommentLine; cvalue := " broken"; cstart := 40; cend := 49; cloc := None |}.

Definition stmt1 : node :=
  {| ntype := "ExpressionStatement"; nloc := Some (loc_at 1);
     leadingComments := None; trailingComments := Some [note; between] |}.
Definition stmt2 : node :=
  {| ntype := "ExpressionStatement"; nloc := Some (loc_at 3);
     leadingComments := Some [between]; trailingComments := None |}.
Definition other : node :=
  {| ntype := "Program"; nloc := None; leadingComments := None; trailingComments := None |}.

Definition store : heap :=
  fun n => match n with 1%positive => stmt1 | 2%positive => stmt2 | _ => other end.

Definition map : cmap :=
  [("20:27", {| leading := None; trailing := Some 1%positive |});
   ("28:38", {| leading := Some 2%positive; trailing := Some 1%positive |})].

(** The map with the two entries swapped. *)
Definition map_rev : cmap := rev map.

(** A map whose entry trails [stmt2], which has no trailing array. *)
Definition map_bad : cmap :=
  [("28:38", {| leading := Some 1%positive; trailing := Some 2%positive |})].
End Scenario.

Import Scenario.

Lemma fixComments_refines_witness :
  exists lg' h', fixComments map store [] = (lg', inr h') /\
                 heap_eq h' (fixComments_spec map store).
Proof. apply fixComments_refines, fix_okb_spec. vm_compute. reflexivity. Defined.

(** The store after the run on [map]. *)
Definition store1 : heap := outcome_or (fixComments map store []) store.

(** Scenario 2: [// between] leaves [stmt1]'s trailing comments, [// note]
    stays, and [stmt2] still leads with [// between]. *)
Example fixComments_scenario :
  trailingComments (store1 1%positive) = Some [note] /\
  leadingComments (store1 2%positive) = Some [between].
Proof. vm_compute. split; reflexivity. Qed.

Lemma fixComments_keeps_same_line_witness :
  fixComments map store [] = ([], inr store1) /\
  exists cs', trailingComments (store1 1%positive) = Some cs' /\ In note cs'.
Proof.
  split; [vm_compute; reflexivity|].
  apply (fixComments_keeps_same_line map store [] [] store1 1%positive [note; between] note 1);
    [vm_compute; reflexivity|reflexivity|simpl; by left|reflexivity..].
Defined.

Lemma fixComments_idempotent_witness :
  fixComments map store [] = ([], inr store1) /\
  exists lg2 h2, fixComments map store1 [] = (lg2, inr h2) /\ heap_eq h2 store1.
Proof.
  split; [vm_compute; reflexivity|].
  apply (fixComments_idempotent map store [] [] store1). vm_compute. reflexivity.
Defined.

Lemma fixComments_drops_claimed_witness :
  fixComments map store [] = ([], inr store1) /\
  (forall cs', trailingComments (store1 1%positive) = Some cs' -> ~ In between cs') /\
  (forall t', leadingComments (store1 t') = leadingComments (store t')).
Proof.
  split; [vm_compute; reflexivity|].
  apply (fixComments_drops_claimed map store [] [] store1 1%positive
           {| leading := Some 2%positive; trailing := Some 1%positive |} between);
    [vm_compute; reflexivity|simpl; right; left; reflexivity|reflexivity..].
Defined.

Lemma fixComments_order_independent_witness :
  Permutation map map_rev /\
  exists lg2 h2, fixComments map_rev store [] = (lg2, inr h2) /\ heap_eq h2 store1.
Proof.
  split; [apply Permutation_rev|].
  apply (fixComments_order_independent map map_rev store [] []);
    [apply Permutation_rev|vm_compute; reflexivity].
Defined.

Lemma fixComments_throws_on_missing_array_witness :
  exists lg' msg, fixComments map_bad store [] = (lg', inl (TypeError msg)).
Proof.
  apply (fixComments_throws_on_missing_array map_bad store [] "28:38"
           {| leading := Some 1%positive; trailing := Some 2%positive |} 2%positive);
    [simpl; left; reflexivity|reflexivity..].
Defined.

Lemma fix_filter_cb_malformed_witness :
  fix_filter_cb "28:38" 1%positive stmt1 broken [] = ([LogNode 1%positive], inr true).
Proof. apply (fix_filter_cb_malformed "28:38" 1%positive stmt1 broken []); [reflexivity|by left]. Defined.

Lemma fixComments_sublist_witness :
  sublist [note] [note; between].
Proof.
  exact (fixComments_sublist map store [] [] store1 1%positive
           ltac:(vm_compute; reflexivity) : sublist [note] [note; between]).
Defined.

Lemma fixComments_frame_witness :
  store1 2%positive = set_trailingComments (store 2%positive) (trailingComments (store1 2%positive)).
Proof. apply (fixComments_frame map store [] []). vm_compute. reflexivity. Defined.
