(* ===== verification/Driver.v ===== *)
(** * The Rewrite Driver: the walk of line 73

    [convert] calls [traverse(ast, transform, null, state)] (line 73). The
    handler catalog ([transform.js]) and the walker ([babel-traverse]) are
    not under src/. They are the class [Transform]: the child references
    of a node as the walker reads them, the handler of a node, which may
    rewrite the node store, add utility types, set [trailingLines] or throw,
    and the depth at which the engine's stack overflows. The walk [walk]
    is modelled from spec section 4.2 as babel-traverse performs it: a
    pre-order recursion that reads a node's children after its handler ran,
    so nodes a handler inserts are walked, with the stack as fuel.
    [TransformLaws] states what spec section 4.2 promises of them. The
    comment recording that the handlers perform on every visited node is
    modelled from spec section 4.2 ([record_comments]): each of the node's
    leading comments gets an entry whose [leading] is the node, each
    trailing comment one whose [trailing] is the node, in the [Map] that
    [state.commentsToNodesMap] denotes ([State.update_state_map]), keyed by
    ["start:end"]. The walk threads a [State.world]. [traverse_sim] shows
    that the set of used utility types does not steer the walk. *)

From S2P Require Import Prelude JsValue Ast CommentMap State.

(** The external walker and handler catalog: the child references of a
    node as the walker reads them from the current store (babel's visitor
    keys), the enter handler of a node, and the recursion depth at which the
    engine's call stack overflows. *)
Class Transform : Type := {
  children : heap -> nid -> list nid;
  handle : nid -> world -> CM world;
  stack_limit : nat
}.

(** What a handler promises (spec sections 4.2 and 6): it leaves the [Map]
    objects, [state.options], [state.startLineToComments] and the field
    [state.commentsToNodesMap] to the driver, and only adds to
    [usedUtilityTypes]. *)
Class TransformLaws `{Transform} : Prop := {
  handle_frame n w lg lg' w' :
    handle n w lg = (lg', inr w') ->
    w_maps w' = w_maps w /\
    commentsToNodesMap (w_state w') = commentsToNodesMap (w_state w) /\
    options (w_state w') = options (w_state w) /\
    startLineToComments (w_state w') = startLineToComments (w_state w) /\
    usedUtilityTypes (w_state w) ⊆ usedUtilityTypes (w_state w')
}.

(** ** Recording the comments of a visited node (spec section 4.2) *)

Definition no_assoc : assoc := {| leading := None; trailing := None |}.

Definition record_leading (n : nid) (m : cmap) (c : comment) : cmap :=
  let k := comment_key c in
  let a := default no_assoc (tbl_get m k) in
  tbl_set m k {| leading := Some n; trailing := trailing a |}.

Definition record_trailing (n : nid) (m : cmap) (c : comment) : cmap :=
  let k := comment_key c in
  let a := default no_assoc (tbl_get m k) in
  tbl_set m k {| leading := leading a; trailing := Some n |}.

Definition record_comments (h : heap) (n : nid) (m : cmap) : cmap :=
  fold_left (record_trailing n) (default [] (trailingComments (h n)))
    (fold_left (record_leading n) (default [] (leadingComments (h n))) m).

(** ** The walk *)

Section Walk.
Context `{Transform}.

(** Visiting [n]: record its comments in the [Map] that
    [state.commentsToNodesMap] denotes, then run its handler. *)
Definition visit (n : nid) (w : world) : CM world :=
  handle n (update_state_map (record_comments (w_nodes w) n) w).

(** babel-traverse's visit of a path: the node's handler (after its
    comments are recorded), then each child the node has once the handler
    ran, so that nodes a handler inserts are walked too. [fuel] is the call
    stack left; exhausting it is the engine's [RangeError]. *)
Fixpoint walk (fuel : nat) (n : nid) (w : world) : CM world :=
  match fuel with
  | O => throw (RangeError "Maximum call stack size exceeded")
  | S fuel' => w' <- visit n w ;; foldM (walk fuel') (children (w_nodes w') n) w'
  end.

(** [traverse(ast, transform, null, state)] (line 73). *)
Definition traverse (root : nid) (w : world) : CM world := walk stack_limit root w.

End Walk.

(** ** Lemmas on recording *)

Lemma record_leading_get n m c k :
  tbl_get (record_leading n m c) k =
    if String.eqb k (comment_key c)
    then Some {| leading := Some n; trailing := trailing (default no_assoc (tbl_get m k)) |}
    else tbl_get m k.
Proof.
  unfold record_leading. destruct (String.eqb_spec k (comment_key c)) as [->|Hne].
  - apply tbl_get_set_eq.
  - apply tbl_get_set_ne. congruence.
Qed.

Lemma record_trailing_get n m c k :
  tbl_get (record_trailing n m c) k =
    if String.eqb k (comment_key c)
    then Some {| leading := leading (default no_assoc (tbl_get m k)); trailing := Some n |}
    else tbl_get m k.
Proof.
  unfold record_trailing. destruct (String.eqb_spec k (comment_key c)) as [->|Hne].
  - apply tbl_get_set_eq.
  - apply tbl_get_set_ne. congruence.
Qed.

(** The entry under [k] names [n] through the field [fld]. *)
Definition names (fld : assoc -> option nid) (n : nid) (m : cmap) (k : string) : Prop :=
  exists a, tbl_get m k = Some a /\ fld a = Some n.

Lemma names_leading_set n m c k :
  names leading n m k \/ k = comment_key c -> names leading n (record_leading n m c) k.
Proof.
  intros Hk. unfold names. rewrite record_leading_get.
  destruct (String.eqb_spec k (comment_key c)); [by eexists|].
  destruct Hk as [Hk|]; [exact Hk|done].
Qed.

Lemma names_leading_keep n n' m c k :
  names leading n m k -> names leading n (record_trailing n' m c) k.
Proof.
  intros (a & Hget & Hf). unfold names. rewrite record_trailing_get, Hget.
  destruct (String.eqb k (comment_key c)); by eexists.
Qed.

Lemma names_trailing_set n m c k :
  names trailing n m k \/ k = comment_key c -> names trailing n (record_trailing n m c) k.
Proof.
  intros Hk. unfold names. rewrite record_trailing_get.
  destruct (String.eqb_spec k (comment_key c)); [by eexists|].
  destruct Hk as [Hk|]; [exact Hk|done].
Qed.

(** After a fold of [step] over [cs], every [c] of [cs] is named under its
    key, when [step] names the key it records and keeps the others. *)
Lemma names_fold (P : cmap -> string -> Prop) (step : cmap -> comment -> cmap) cs m c :
  (forall m c k, P m k \/ k = comment_key c -> P (step m c) k) ->
  In c cs -> P (fold_left step cs m) (comment_key c).
Proof.
  intros Hstep. revert m. induction cs as [|c' cs IH]; intros m Hin; [done|].
  simpl. destruct Hin as [<-|Hin]; [|by apply IH].
  apply fold_left_invariant; [by apply Hstep; right|]. intros m' c'' Hm'. apply Hstep. by left.
Qed.

(** C17 (functional, spec section 4.2): after [n]'s comments are recorded,
    the entry of each of its leading comments has [leading = n] and the
    entry of each of its trailing comments has [trailing = n]. *)
Theorem record_comments_claims h n m :
  (forall c, In c (default [] (leadingComments (h n))) ->
     names leading n (record_comments h n m) (comment_key c)) /\
  (forall c, In c (default [] (trailingComments (h n))) ->
     names trailing n (record_comments h n m) (comment_key c)).
Proof.
  unfold record_comments. split; intros c Hin.
  - apply fold_left_invariant; [|intros; by apply names_leading_keep].
    apply (names_fold (names leading n)); [intros; by apply names_leading_set|done].
  - apply (names_fold (names trailing n)); [intros; by apply names_trailing_set|done].
Qed.

(** ** Invariants of the walk *)

Lemma record_comments_wf h n m : cmap_wf m -> cmap_wf (record_comments h n m).
Proof.
  intros Hwf. unfold record_comments.
  apply fold_left_invariant; [apply fold_left_invariant; [done|]|];
    intros m' c Hm'; by apply cmap_wf_set.
Qed.

#[export] Hint Resolve record_comments_wf : conv.

(** What the walk keeps, relative to the world [w0] it started from: the
    world is well typed, [state] refers to the same [Map], every other [Map]
    is untouched, the options and the index are unchanged, and no utility
    type is forgotten. *)
Definition walk_inv (w0 w : world) : Prop :=
  world_ok w /\
  commentsToNodesMap (w_state w) = commentsToNodesMap (w_state w0) /\
  (forall r, r <> commentsToNodesMap (w_state w0) -> map_at (w_maps w) r = map_at (w_maps w0) r) /\
  options (w_state w) = options (w_state w0) /\
  startLineToComments (w_state w) = startLineToComments (w_state w0) /\
  usedUtilityTypes (w_state w0) ⊆ usedUtilityTypes (w_state w).

Lemma walk_inv_refl w : world_ok w -> walk_inv w w.
Proof. intros Hok. split; [done|]. repeat split; done. Qed.

(** An invariant of every completed visit holds after a completed walk. *)
Lemma walk_preserves `{Transform} (I : world -> Prop) :
  (forall n w lg lg' w', visit n w lg = (lg', inr w') -> I w -> I w') ->
  forall fuel n w lg lg' w', walk fuel n w lg = (lg', inr w') -> I w -> I w'.
Proof.
  intros Hv fuel. induction fuel as [|fuel IH]; intros n w lg lg' w' Hrun Hw; [done|].
  simpl in Hrun. apply bind_inr in Hrun as (lg1 & w1 & Hvis & Hrest).
  exact (foldM_invariant I (walk fuel) _ IH _ _ _ _ Hrest (Hv _ _ _ _ _ Hvis Hw)).
Qed.

Section WalkLaws.
Context `{TransformLaws}.

Lemma visit_inv w0 n w lg lg' w' :
  visit n w lg = (lg', inr w') -> walk_inv w0 w -> walk_inv w0 w'.
Proof.
  unfold visit. intros Hrun (Hok & Hr & Hother & Ho & Hi & Hu).
  apply handle_frame in Hrun as (Hm' & Hr' & Ho' & Hi' & Hu'). simpl in *.
  assert (Hok' : world_ok (update_state_map (record_comments (w_nodes w) n) w))
    by (apply update_state_map_ok; auto with conv).
  destruct Hok' as [Hdom Hall]. simpl in *.
  split; [unfold world_ok; by rewrite Hm', Hr'|].
  split; [by rewrite Hr'|]. split.
  - intros r Hne. rewrite Hm'. simpl. rewrite map_at_insert_ne by congruence. by apply Hother.
  - rewrite Ho', Hi'. split; [done|]. split; [done|]. by etransitivity.
Qed.

Lemma traverse_walk_inv root w lg lg' w' :
  traverse root w lg = (lg', inr w') -> world_ok w -> walk_inv w w'.
Proof.
  intros Hrun Hok. apply (walk_preserves (walk_inv w) (visit_inv w) _ _ _ _ _ _ Hrun).
  by apply walk_inv_refl.
Qed.

(** Under the laws, the [Map] that [state] referred to when the walk
    started holds, when it ends, the entries the walk recorded. *)
Lemma traverse_state_map root w lg lg' w' :
  traverse root w lg = (lg', inr w') -> world_ok w ->
  map_at (w_maps w') (commentsToNodesMap (w_state w)) = state_map w' /\ cmap_wf (state_map w').
Proof.
  intros Hrun Hok. destruct (traverse_walk_inv _ _ _ _ _ Hrun Hok) as ([Hdom Hall] & Hr & _).
  unfold state_map. rewrite Hr in *. split; [done|].
  apply elem_of_dom in Hdom as [m Hm]. unfold map_at. rewrite Hm. exact (Hall _ _ Hm).
Qed.

End WalkLaws.

(** ** The set of used utility types does not steer the walk

    Two catalogs that visit the same nodes and whose handlers do the same
    thing, apart from what they add to [usedUtilityTypes], produce walks
    that differ at most in that set. *)

Section Simulation.
Context (T1 T2 : Transform).
Hypothesis children_eq : forall h n, @children T1 h n = @children T2 h n.
Hypothesis limit_eq : @stack_limit T1 = @stack_limit T2.
Hypothesis handle_sim : forall n w1 w2 lg,
  forget_used w1 = forget_used w2 ->
  res_rel (fun v1 v2 => forget_used v1 = forget_used v2) (@handle T1 n w1 lg) (@handle T2 n w2 lg).

Lemma walk_sim fuel : forall n w1 w2 lg,
  forget_used w1 = forget_used w2 ->
  res_rel (fun v1 v2 => forget_used v1 = forget_used v2)
    (@walk T1 fuel n w1 lg) (@walk T2 fuel n w2 lg).
Proof.
  induction fuel as [|fuel IH]; intros n w1 w2 lg Hw; simpl; [by split|].
  apply (res_rel_bind (fun v1 v2 => forget_used v1 = forget_used v2)).
  - unfold visit. assert (w_nodes w1 = w_nodes w2) as -> by exact (f_equal w_nodes Hw).
    apply handle_sim, forget_used_update, Hw.
  - intros v1 v2 lg' Hv. rewrite children_eq.
    assert (w_nodes v1 = w_nodes v2) as -> by exact (f_equal w_nodes Hv).
    by apply foldM_sim.
Qed.

Lemma traverse_sim root w lg :
  res_rel (fun v1 v2 => forget_used v1 = forget_used v2)
    (@traverse T1 root w lg) (@traverse T2 root w lg).
Proof. unfold traverse. rewrite limit_eq. by apply walk_sim. Qed.
End Simulation.

Module WalkExample.
Definition at_line (l : Z) : source_location :=
  {| loc_start := {| line := l; column := 0 |}; loc_end := {| line := l; column := 9 |} |}.
Definition mid : comment :=
  {| ctype := CommentLine; cvalue := " mid"; cstart := 10; cend := 16; cloc := Some (at_line 2) |}.
Definition inner : comment :=
  {| ctype := CommentBlock; cvalue := " inner "; cstart := 40; cend := 51; cloc := Some (at_line 3) |}.
Definition store : heap :=
  fun n => match n with
           | 1%positive => {| ntype := "VariableDeclaration"; nloc := Some (at_line 1);
                              leadingComments := None; trailingComments := Some [mid] |}
           | 2%positive => {| ntype := "TypeAlias"; nloc := Some (at_line 3);
                              leadingComments := Some [mid]; trailingComments := None |}
           | 4%positive => {| ntype := "TypeAnnotation"; nloc := Some (at_line 3);
                              leadingComments := Some [inner]; trailingComments := None |}
           | _ => {| ntype := "Program"; nloc := None; leadingComments := None; trailingComments := None |}
           end.

Definition add_used (u : string) (st : conv_state) : conv_state :=
  {| usedUtilityTypes := {[u]} ∪ usedUtilityTypes st; options := options st;
     commentsToNodesMap := commentsToNodesMap st;
     startLineToComments := startLineToComments st; trailingLines := trailingLines st |}.

(** The program 3 has the statements 1 and 2; an [ExportNamedDeclaration]
    has the declaration 4. *)
Definition shape (h : heap) (n : nid) : list nid :=
  if Pos.eqb n 3 then [1%positive; 2%positive]
  else if String.eqb (ntype (h n)) "ExportNamedDeclaration" then [4%positive] else [].

(** A catalog whose handler reports the utility type [$Keys] as used and
    turns statement 1 into an export, which gives it the child 4. *)
Definition transform : Transform :=
  {| children := shape;
     handle := fun n w =>
       let h := w_nodes w in
       let h' := if Pos.eqb n 1 then heap_upd h n {| ntype := "ExportNamedDeclaration";
                   nloc := nloc (h n); leadingComments := leadingComments (h n);
                   trailingComments := trailingComments (h n) |} else h in
       ret {| w_nodes := h'; w_maps := w_maps w; w_state := add_used "$Keys" (w_state w) |};
     stack_limit := 100 |}.

Lemma transform_laws : @TransformLaws transform.
Proof.
  constructor. intros n w lg lg' w' Hrun. simpl in Hrun.
  injection Hrun as <- <-. simpl. repeat split; set_solver.
Qed.

Definition w0 : world :=
  let '(r, ms) := new_map ∅ in
  {| w_nodes := store; w_maps := ms; w_state := init_state JUndefined r ∅ |}.
Definition result : world := outcome_or (@traverse transform 3%positive w0 []) w0.
End WalkExample.

(** The walk records [mid] as trailing statement 1 and leading statement 2,
    and visits node 4, which statement 1 has only after its handler ran. *)
Example traverse_records :
  tbl_get (state_map WalkExample.result) "10:16" =
    Some {| leading := Some 2%positive; trailing := Some 1%positive |} /\
  tbl_get (state_map WalkExample.result) "40:51" =
    Some {| leading := Some 4%positive; trailing := None |}.
Proof. vm_compute. split; reflexivity. Qed.
