(* ===== verification/Regenerator.v ===== *)
(** * The Text Regenerator's trailing newlines (convert.js lines 83-86)

    [let tsCode = generate(ast, flowCode).code;
     for (let i = 0; i < state.trailingLines; i++) { tsCode += "\n"; }]
    The generator itself is external ([Convert.Collaborators]). The loop
    compares the counter with [state.trailingLines], which convert.js never
    assigns: it is [undefined] unless a handler set it, and [i < undefined]
    is [false]. The loop is modelled with fuel; [loop_fuel] is exactly the
    number of iterations, and any larger fuel gives the same string. *)

From S2P Require Import Prelude JsValue Ast.
From Stdlib Require Import Ascii.

Definition newline : ascii := newline_char.

(** [k] newline characters. *)
Fixpoint newlines (k : nat) : string :=
  match k with
  | O => EmptyString
  | S k' => String newline (newlines k')
  end.

(** [i < state.trailingLines]: a number compares numerically, [undefined]
    compares as [NaN], which is never greater. *)
Definition below_trailing (i : Z) (tl : option Z) : bool :=
  match tl with
  | Some n => Z.ltb i n
  | None => false
  end.

(** The loop body [tsCode += "\n"; i++], run while the test holds. *)
Fixpoint newline_loop (fuel : nat) (i : Z) (tl : option Z) (code : string) : string :=
  match fuel with
  | O => code
  | S fuel' =>
      if below_trailing i tl
      then newline_loop fuel' (i + 1) tl (code ++ String newline EmptyString)
      else code
  end.

(** The number of iterations of the loop started at [i = 0]. *)
Definition loop_fuel (tl : option Z) : nat :=
  match tl with
  | Some n => Z.to_nat n
  | None => O
  end.

(** Lines 84-86. *)
Definition append_trailing_lines (code : string) (tl : option Z) : string :=
  newline_loop (loop_fuel tl) 0 tl code.

Lemma newlines_snoc k : (String newline EmptyString ++ newlines k = newlines (S k))%string.
Proof. reflexivity. Qed.


(** With fuel at least the number of remaining iterations, the loop
    appends one newline per value of [i] below [n]. *)
Lemma newline_loop_enough_fuel fuel i n code :
  (Z.to_nat (n - i) <= fuel)%nat ->
  newline_loop fuel i (Some n) code = (code ++ newlines (Z.to_nat (n - i)))%string.
Proof.
  revert i code. induction fuel as [|fuel IH]; intros i code Hfuel; simpl.
  - assert (Z.to_nat (n - i) = O) as -> by lia. by rewrite string_app_nil_r.
  - destruct (Z.ltb_spec i n) as [Hlt|Hge].
    + rewrite IH by lia. rewrite <- string_app_assoc.
      replace (Z.to_nat (n - i)) with (S (Z.to_nat (n - (i + 1)))) by lia.
      by rewrite newlines_snoc.
    + assert (Z.to_nat (n - i) = O) as -> by lia. by rewrite string_app_nil_r.
Qed.

(** The generated code gets exactly [trailingLines] newlines when it is a
    number, none when it is negative, and none when it was never assigned. *)
Lemma append_trailing_lines_spec code tl :
  append_trailing_lines code tl = (code ++ newlines (loop_fuel tl))%string.
Proof.
  unfold append_trailing_lines. destruct tl as [n|]; simpl.
  - rewrite newline_loop_enough_fuel by lia. by rewrite Z.sub_0_r.
  - by rewrite string_app_nil_r.
Qed.


(** C14 (termination): the loop stops by itself: [loop_fuel] iterations are
    enough, and running it with any more fuel gives the same string. *)
Theorem newline_loop_terminates fuel code tl :
  (loop_fuel tl <= fuel)%nat ->
  newline_loop fuel 0 tl code = append_trailing_lines code tl.
Proof.
  intros Hf. rewrite append_trailing_lines_spec. destruct tl as [n|]; simpl in *.
  - rewrite newline_loop_enough_fuel by lia. by rewrite Z.sub_0_r.
  - destruct fuel; simpl; by rewrite string_app_nil_r.
Qed.

Lemma newline_loop_terminates_witness :
  newline_loop 10 0 (Some 3%Z) "x;" = append_trailing_lines "x;" (Some 3%Z).
Proof. apply newline_loop_terminates. simpl. lia. Defined.
