(* ===== verification/Formatter.v ===== *)
(** * The Formatter Adapter: the prettier branch (convert.js lines 88-97)

    [if (options && options.prettier) {
       const prettierOptions = { parser: "typescript", plugins, ...options.prettierOptions };
       return prettier.format(tsCode, prettierOptions).trim();
     } else { return tsCode; }]
    [prettier.format] is external: the class [Prettier] holds it, and it may
    throw a [FormatterError]. [plugins] is the array of line 5 holding the
    TypeScript parser plugin, modelled by its module path. *)

From S2P Require Import Prelude JsValue Ast.

(** [const plugins = [require("prettier/parser-typescript.js")]] (line 5). *)
Definition plugins : jsval := JArr [JStr "prettier/parser-typescript.js"].

(** The external formatter. *)
Class Prettier : Type := {
  prettier_format : string -> jsobj -> CM string
}.

(** [{ parser: "typescript", plugins, ...options.prettierOptions }]
    (lines 89-93); [options] is known to be truthy here. *)
Definition prettier_options (opts : jsval) : jsobj :=
  obj_assign [("parser", JStr "typescript"); ("plugins", plugins)] (js_get opts "prettierOptions").

Section Adapter.
Context `{Prettier}.

(** Lines 88-97. *)
Definition format_output (opts : jsval) (tsCode : string) : CM string :=
  if guarded_flag opts "prettier"
  then formatted <- prettier_format tsCode (prettier_options opts) ;; ret (js_trim formatted)
  else ret tsCode.

(** C20 (error): a formatter error is the result of the call. *)
Theorem format_output_error opts tsCode lg lg' e :
  guarded_flag opts "prettier" = true ->
  prettier_format tsCode (prettier_options opts) lg = (lg', inl e) ->
  format_output opts tsCode lg = (lg', inl e).
Proof. intros Hf Hp. unfold format_output. rewrite Hf. unfold bind. by rewrite Hp. Qed.

End Adapter.

(** C19 (functional, lines 89-93): the caller's [prettierOptions] override the
    defaults key by key: [parser] is the caller's when given and
    ["typescript"] otherwise, [plugins] likewise, and every other key is the
    caller's. *)
Theorem prettier_options_get (o p : jsobj) k :
  NoDup p.*1 ->
  obj_get (prettier_options (JObj (("prettierOptions", JObj p) :: o))) k =
    if tbl_has p k then obj_get p k
    else if String.eqb k "parser" then JStr "typescript"
    else if String.eqb k "plugins" then plugins else JUndefined.
Proof.
  intros Hnd. unfold prettier_options.
  assert (js_get (JObj (("prettierOptions", JObj p) :: o)) "prettierOptions" = JObj p) as ->
    by reflexivity.
  rewrite obj_get_assign by done. destruct (tbl_has p k); [done|].
  unfold obj_get. simpl. by destruct (String.eqb k "parser"), (String.eqb k "plugins").
Qed.

Module FormatExample.
(** A formatter that returns its input with a blank line around it, and
    one that rejects everything. *)
Definition padding : Prettier :=
  {| prettier_format := fun code _ => ret (String newline_char (code ++ " " ++ String newline_char ""))%string |}.
Definition failing : Prettier :=
  {| prettier_format := fun _ _ => throw (FormatterError "SyntaxError") |}.
Definition opts_on : jsval := JObj [("prettier", JBool true)].
Definition opts_off : jsval := JObj [("debug", JBool true)].
Definition code : string := ("type T = {a: number};" ++ String newline_char (String newline_char ""))%string.
End FormatExample.

Import FormatExample.

Example format_output_run :
  @format_output padding opts_on code [] = ([], inr "type T = {a: number};"%string).
Proof. vm_compute. reflexivity. Qed.

Lemma format_output_error_witness :
  @format_output failing opts_on code [] = ([], inl (FormatterError "SyntaxError")).
Proof. apply (@format_output_error failing); reflexivity. Defined.

Lemma prettier_options_get_witness :
  obj_get (prettier_options (JObj [("prettierOptions", JObj [("parser", JStr "babel-ts"); ("tabWidth", JNum 4)])]))
    "parser" = JStr "babel-ts".
Proof. apply (prettier_options_get [] [("parser", JStr "babel-ts"); ("tabWidth", JNum 4)] "parser"). repeat constructor; set_solver. Defined.
