(* ===== verification/Convert.v ===== *)
(** * [convert] (convert.js lines 9-27 and 55-98)

    The pipeline composed from the components: parse, index the comments,
    build the state and walk, reconcile the comments, dump the AST when
    [options.debug] is truthy, generate, append the trailing newlines and
    format. The parser and the generator are the class [Collaborators]; the
    walker and handlers are [Driver.Transform]; prettier is
    [Formatter.Prettier]. *)

From S2P Require Import Prelude JsValue Ast CommentMap State PositionIndex Reconciler Driver Regenerator Formatter.

(** [parseOptions] (lines 9-27). *)
Definition parseOptions : jsobj :=
  [("sourceType", JStr "module");
   ("plugins", JArr (map JStr ["jsx"; "flow"; "decorators-legacy"; "classProperties";
                               "objectRestSpread"; "dynamicImport"; "optionalChaining";
                               "nullishCoalescingOperator"; "classPrivateProperties";
                               "classPrivateMethods"]))].

(** What [parse] returns: the node store, the [Program]'s reference and the
    flat [ast.comments] list. *)
Record ast : Type := { ast_heap : heap; ast_program : nid; ast_comments : list comment }.

(** [@babel/parser]'s [parse] and [@babel/generator]'s [generate(...).code]. *)
Class Collaborators : Type := {
  parse : string -> jsobj -> CM ast;
  generate : heap -> nid -> string -> CM string
}.

(** What the external parts promise about the log: they only append to it,
    as [console.log] output cannot be taken back. *)
Class PipelineLaws `{Collaborators} `{Transform} `{Prettier} : Prop := {
  parse_framed code o : framed (parse code o);
  generate_framed h n code : framed (generate h n code);
  format_framed code o : framed (prettier_format code o)
}.

Lemma format_output_framed `{Prettier} opts code :
  (forall code o, framed (prettier_format code o)) -> framed (format_output opts code).
Proof.
  intros Hf. unfold format_output. destruct (guarded_flag opts "prettier"); auto with conv.
Qed.

(** Lines 59 and 67-72: [new Map()], the [state] object holding it, and
    the AST the walk rewrites. *)
Definition start_world (a : ast) (opts : jsval) (idx : gmap Z comment) : world :=
  let '(r, ms) := new_map ∅ in
  {| w_nodes := ast_heap a; w_maps := ms; w_state := init_state opts r idx |}.

Lemma start_world_ok a opts idx : world_ok (start_world a opts idx).
Proof.
  unfold start_world, new_map, world_ok; simpl. split.
  - rewrite dom_insert_L. set_solver.
  - apply map_Forall_insert_2; [apply cmap_wf_empty|apply map_Forall_empty].
Qed.

Lemma start_world_ref a opts idx :
  commentsToNodesMap (w_state (start_world a opts idx)) = (new_map ∅).1.
Proof. unfold start_world. by destruct (new_map ∅). Qed.

Section Pipeline.
Context `{Collaborators} `{Transform} `{Prettier}.

(** [if (options && options.debug) console.log(JSON.stringify(ast, null, 4))]
    (lines 77-79). *)
Definition debug_dump (opts : jsval) : CM unit :=
  if guarded_flag opts "debug" then emit LogAst else ret tt.

(** Lines 55-98. The local [commentsToNodesMap] and the field of [state]
    are two references to the [Map] of line 59; [fixComments] reads it
    through the local one (line 75). *)
Definition convert (flowCode : string) (opts : jsval) : CM string :=
  a <- parse flowCode parseOptions ;;
  let '(commentsToNodesMap, maps) := new_map ∅ in
  startLineToComments <- index_comments (ast_comments a) ;;
  let state := init_state opts commentsToNodesMap startLineToComments in
  w <- traverse (ast_program a) {| w_nodes := ast_heap a; w_maps := maps; w_state := state |} ;;
  h' <- fixComments (map_at (w_maps w) commentsToNodesMap) (w_nodes w) ;;
  debug_dump opts ;;;
  tsCode <- generate h' (ast_program a) flowCode ;;
  format_output opts (append_trailing_lines tsCode (trailingLines (w_state w))).

(** [module.exports = convert; module.exports.parseOptions = parseOptions]
    (lines 100-101): the exported function with its [parseOptions]
    property. *)
Record convert_module : Type := {
  exported_convert : string -> jsval -> CM string;
  exported_parseOptions : jsobj
}.

Definition module_exports : convert_module :=
  {| exported_convert := convert; exported_parseOptions := parseOptions |}.

(** ** Running the pipeline step by step *)

(** A successful run, stage by stage. *)
Inductive run_trace (flowCode : string) (opts : jsval) (lg lg' : list log_event) (out : string) :
  Prop :=
  | RunTrace (a : ast) (idx : gmap Z comment) (w : world) (h' : heap)
    (tsCode : string) (l1 l2 l3 l4 l5 l6 : list log_event) :
    parse flowCode parseOptions lg = (l1, inr a) ->
    index_comments (ast_comments a) l1 = (l2, inr idx) ->
    traverse (ast_program a) (start_world a opts idx) l2 = (l3, inr w) ->
    fixComments (map_at (w_maps w) (new_map ∅).1) (w_nodes w) l3 = (l4, inr h') ->
    debug_dump opts l4 = (l5, inr tt) ->
    generate h' (ast_program a) flowCode l5 = (l6, inr tsCode) ->
    format_output opts (append_trailing_lines tsCode (trailingLines (w_state w))) l6 = (lg', inr out) ->
    run_trace flowCode opts lg lg' out.

(** [convert] after the walk (lines 75-98), on the parsed AST and the
    walked world. *)
Definition after_walk (flowCode : string) (opts : jsval) (a : ast) (w : world) : CM string :=
  h' <- fixComments (map_at (w_maps w) (new_map ∅).1) (w_nodes w) ;;
  debug_dump opts ;;;
  tsCode <- generate h' (ast_program a) flowCode ;;
  format_output opts (append_trailing_lines tsCode (trailingLines (w_state w))).

(** [convert] after the parser, as a computation on the parsed AST. *)
Definition after_parse (flowCode : string) (opts : jsval) (a : ast) : CM string :=
  idx <- index_comments (ast_comments a) ;;
  w <- traverse (ast_program a) (start_world a opts idx) ;;
  after_walk flowCode opts a w.

Lemma convert_after_parse flowCode opts :
  convert flowCode opts = (a <- parse flowCode parseOptions ;; after_parse flowCode opts a).
Proof.
  unfold convert, after_parse, after_walk, start_world. by destruct (new_map ∅).
Qed.

Lemma convert_trace flowCode opts lg lg' out :
  convert flowCode opts lg = (lg', inr out) -> run_trace flowCode opts lg lg' out.
Proof.
  rewrite convert_after_parse. unfold after_parse, after_walk. intros Hrun.
  apply bind_inr in Hrun as (l1 & a & Hp & Hrun).
  apply bind_inr in Hrun as (l2 & idx & Hi & Hrun).
  apply bind_inr in Hrun as (l3 & w & Hw & Hrun).
  apply bind_inr in Hrun as (l4 & h' & Hf & Hrun).
  apply bind_inr in Hrun as (l5 & u & Hd & Hrun). destruct u.
  apply bind_inr in Hrun as (l6 & code & Hg & Hrun).
  by eapply RunTrace.
Qed.

(** Once the parser, the index and the walk have run, [convert] continues
    with [after_walk] on their results. *)
Lemma convert_after_walk flowCode opts lg l1 l2 l3 a idx w :
  parse flowCode parseOptions lg = (l1, inr a) ->
  index_comments (ast_comments a) l1 = (l2, inr idx) ->
  traverse (ast_program a) (start_world a opts idx) l2 = (l3, inr w) ->
  convert flowCode opts lg = after_walk flowCode opts a w l3.
Proof.
  intros Hp Hi Hw. rewrite convert_after_parse, (bind_inr_step _ _ _ _ _ Hp). unfold after_parse.
  by rewrite (bind_inr_step _ _ _ _ _ Hi), (bind_inr_step _ _ _ _ _ Hw).
Qed.

(** After a successful [fixComments], the rest of the run. *)
Lemma after_walk_fixed flowCode opts a w l3 l4 h' :
  fixComments (map_at (w_maps w) (new_map ∅).1) (w_nodes w) l3 = (l4, inr h') ->
  after_walk flowCode opts a w l3 =
    (debug_dump opts ;;; tsCode <- generate h' (ast_program a) flowCode ;;
     format_output opts (append_trailing_lines tsCode (trailingLines (w_state w)))) l4.
Proof. intros Hf. unfold after_walk. by rewrite (bind_inr_step _ _ _ _ _ Hf). Qed.

(** Take a successful run apart into its stages. *)
Ltac trace_of H :=
  destruct (convert_trace _ _ _ _ _ H)
    as [?a ?idx ?w ?h' ?code ?l1 ?l2 ?l3 ?l4 ?l5 ?l6 ?Hp ?Hi ?Hw ?Hfix ?Hd ?Hg ?Hfmt].

(** C12 (error, spec section 7): a [ParseError] from the parser is the result
      of [convert], with nothing else run. *)
Theorem convert_parse_error flowCode opts lg lg1 msg :
  parse flowCode parseOptions lg = (lg1, inl (ParseError msg)) ->
  convert flowCode opts lg = (lg1, inl (ParseError msg)).
Proof. intros Hp. rewrite convert_after_parse. by apply bind_inl. Qed.

(** C10 (error): a comment of [ast.comments] without location metadata makes
      [convert] throw a [TypeError] while building the position index, before
      the walk and before [fixComments]'s guarded read is reached. *)
Theorem convert_unlocated_comment flowCode opts lg lg1 a c :
  parse flowCode parseOptions lg = (lg1, inr a) ->
  In c (ast_comments a) -> cloc c = None ->
  exists msg, convert flowCode opts lg = (lg1, inl (TypeError msg)).
Proof.
  intros Hp Hin Hc. destruct (index_throws _ lg1 c Hin Hc) as [msg Hi].
  exists msg. rewrite convert_after_parse, (bind_inr_step _ _ _ _ _ Hp). by apply bind_inl.
Qed.

(** C13 (error, spec section 7): an error thrown by a handler during the walk
      is the result of [convert]. *)
Theorem convert_handler_error flowCode opts lg lg1 lg2 lg3 a idx e :
  parse flowCode parseOptions lg = (lg1, inr a) ->
  index_comments (ast_comments a) lg1 = (lg2, inr idx) ->
  traverse (ast_program a) (start_world a opts idx) lg2 = (lg3, inl e) ->
  convert flowCode opts lg = (lg3, inl e).
Proof.
  intros Hp Hi Hw. rewrite convert_after_parse, (bind_inr_step _ _ _ _ _ Hp). unfold after_parse.
  rewrite (bind_inr_step _ _ _ _ _ Hi). by apply bind_inl.
Qed.

(** C3 (refinement, spec sections 4.3 and 4.4): take the AST the parser
      returned, the index built from its comments and the world the walk
      left, with an array on every trailing node of a both-claimed entry of
      the [Map] of line 59. Without formatting, [convert] then dumps the AST
      if asked, hands the generator a store equal, node by node, to
      [fixComments_spec] of that [Map] and the walked store, and returns
      the generated text followed by [trailingLines] newlines. *)
Theorem convert_unformatted flowCode opts lg l1 l2 l3 a idx w :
  guarded_flag opts "prettier" = false ->
  parse flowCode parseOptions lg = (l1, inr a) ->
  index_comments (ast_comments a) l1 = (l2, inr idx) ->
  traverse (ast_program a) (start_world a opts idx) l2 = (l3, inr w) ->
  fix_ok (map_at (w_maps w) (new_map ∅).1) (w_nodes w) ->
  exists l4 h',
    heap_eq h' (fixComments_spec (map_at (w_maps w) (new_map ∅).1) (w_nodes w)) /\
    convert flowCode opts lg =
      (debug_dump opts ;;; tsCode <- generate h' (ast_program a) flowCode ;;
       ret (tsCode ++ newlines (loop_fuel (trailingLines (w_state w))))%string) l4.
Proof.
  intros Hpr Hp Hi Hw Hok. destruct (fixComments_total _ _ l3 Hok) as (l4 & h' & Hf).
  exists l4, h'. split; [exact (fixComments_sound _ _ _ _ _ Hf)|].
  rewrite (convert_after_walk _ _ _ _ _ _ _ _ _ Hp Hi Hw), (after_walk_fixed _ _ _ _ _ _ _ Hf).
  unfold bind. destruct (debug_dump opts l4) as [l5 [e|[]]]; [done|].
  destruct (generate h' (ast_program a) flowCode l5) as [l6 [e|code]]; [done|].
  unfold format_output. by rewrite Hpr, append_trailing_lines_spec.
Qed.

(** C7 (safety, spec section 8): in the same run, the store [fixComments]
      returns is the one handed to the generator, and every same-line line
      comment that trails a node of the walked store still trails it
      there. *)
Theorem convert_keeps_same_line flowCode opts lg l1 l2 l3 a idx w :
  parse flowCode parseOptions lg = (l1, inr a) ->
  index_comments (ast_comments a) l1 = (l2, inr idx) ->
  traverse (ast_program a) (start_world a opts idx) l2 = (l3, inr w) ->
  fix_ok (map_at (w_maps w) (new_map ∅).1) (w_nodes w) ->
  exists l4 h',
    fixComments (map_at (w_maps w) (new_map ∅).1) (w_nodes w) l3 = (l4, inr h') /\
    convert flowCode opts lg =
      (debug_dump opts ;;; tsCode <- generate h' (ast_program a) flowCode ;;
       format_output opts (append_trailing_lines tsCode (trailingLines (w_state w)))) l4 /\
    forall t cs c ln,
      trailingComments (w_nodes w t) = Some cs -> In c cs -> ctype c = CommentLine ->
      comment_start_line c = Some ln -> node_start_line (w_nodes w t) = Some ln ->
      exists cs', trailingComments (h' t) = Some cs' /\ In c cs'.
Proof.
  intros Hp Hi Hw Hok. destruct (fixComments_total _ _ l3 Hok) as (l4 & h' & Hf).
  exists l4, h'. split; [done|]. split.
  - rewrite (convert_after_walk _ _ _ _ _ _ _ _ _ Hp Hi Hw). by apply after_walk_fixed.
  - intros t cs c ln. rewrite (fixComments_sound _ _ _ _ _ Hf t). apply spec_keeps_same_line.
Qed.

(** ** The comment map is shared between [state] and [fixComments] *)

(** Under the handler laws the map the reconciler reads through the local
    binding (line 75) is the one the walk filled through the state. *)
Lemma run_reads_state_map `{!TransformLaws} a opts idx l2 l3 w :
  traverse (ast_program a) (start_world a opts idx) l2 = (l3, inr w) ->
  map_at (w_maps w) (new_map ∅).1 = state_map w /\ cmap_wf (state_map w).
Proof.
  intros Hw. rewrite <- (start_world_ref a opts idx).
  exact (traverse_state_map _ _ _ _ _ Hw (start_world_ok a opts idx)).
Qed.

(** C25 (invariant, lines 59, 70, 73 and 75): when the handlers keep to
      [TransformLaws], the [Map] that the local [commentsToNodesMap] denotes
      after the walk is the [Map] that [state.commentsToNodesMap] denotes,
      its keys are unique, and [convert] goes on by running [fixComments]
      on it. *)
Theorem convert_reconciles_state_map `{!TransformLaws} flowCode opts lg l1 l2 l3 a idx w :
  parse flowCode parseOptions lg = (l1, inr a) ->
  index_comments (ast_comments a) l1 = (l2, inr idx) ->
  traverse (ast_program a) (start_world a opts idx) l2 = (l3, inr w) ->
  map_at (w_maps w) (new_map ∅).1 = state_map w /\ cmap_wf (state_map w) /\
  convert flowCode opts lg =
    (h' <- fixComments (state_map w) (w_nodes w) ;;
     debug_dump opts ;;;
     tsCode <- generate h' (ast_program a) flowCode ;;
     format_output opts (append_trailing_lines tsCode (trailingLines (w_state w)))) l3.
Proof.
  intros Hp Hi Hw. destruct (run_reads_state_map _ _ _ _ _ _ Hw) as [Heq Hwf].
  split; [done|]. split; [done|].
  rewrite (convert_after_walk _ _ _ _ _ _ _ _ _ Hp Hi Hw). unfold after_walk. by rewrite Heq.
Qed.

Lemma debug_dump_total opts lg : exists lg', debug_dump opts lg = (lg', inr tt).
Proof. unfold debug_dump. destruct (guarded_flag opts "debug"); by eexists. Qed.

Lemma format_output_total opts code lg :
  (forall code o l, exists l' s, prettier_format code o l = (l', inr s)) ->
  exists lg' out, format_output opts code lg = (lg', inr out).
Proof.
  intros Hfmt. unfold format_output. destruct (guarded_flag opts "prettier"); [|by do 2 eexists].
  destruct (Hfmt code (prettier_options opts) lg) as (l' & f & Hf).
  rewrite (bind_inr_step _ _ _ _ _ Hf). by do 2 eexists.
Qed.

(** C26 (liveness, spec sections 5 and 7): [convert] returns a string when
      the parser returns an AST whose comments all have a location, the
      walk completes leaving an array on every trailing node of a
      both-claimed entry, and the generator and the formatter return. *)
Theorem convert_succeeds `{!TransformLaws} flowCode opts lg l1 a :
  parse flowCode parseOptions lg = (l1, inr a) ->
  all_located (ast_comments a) ->
  (forall idx l, exists l' w, traverse (ast_program a) (start_world a opts idx) l = (l', inr w) /\
     fix_ok (state_map w) (w_nodes w)) ->
  (forall h n l, exists l' code, generate h n flowCode l = (l', inr code)) ->
  (forall code o l, exists l' s, prettier_format code o l = (l', inr s)) ->
  exists lg' out, convert flowCode opts lg = (lg', inr out).
Proof.
  intros Hp Hloc Hwalk Hgen Hfmt.
  rewrite convert_after_parse, (bind_inr_step _ _ _ _ _ Hp). unfold after_parse, after_walk.
  destruct (index_fold_located _ ∅ l1 Hloc) as (idx & Hi & _).
  change (foldM index_step (ast_comments a) ∅ l1) with (index_comments (ast_comments a) l1) in Hi.
  rewrite (bind_inr_step _ _ _ _ _ Hi).
  destruct (Hwalk idx l1) as (l3 & w & Hw & Hok). rewrite (bind_inr_step _ _ _ _ _ Hw).
  destruct (run_reads_state_map _ _ _ _ _ _ Hw) as [-> _].
  destruct (fixComments_total _ _ l3 Hok) as (l4 & h' & Hf). rewrite (bind_inr_step _ _ _ _ _ Hf).
  destruct (debug_dump_total opts l4) as [l5 Hd]. rewrite (bind_inr_step _ _ _ _ _ Hd).
  destruct (Hgen h' (ast_program a) l5) as (l6 & code & Hg). rewrite (bind_inr_step _ _ _ _ _ Hg).
  by apply format_output_total.
Qed.

(** C11 (functional, spec sections 4.5 and 8): with a truthy [prettier]
      option, a successful [convert] has given prettier the generated text
      of the reconciled store, followed by the trailing newlines, with
      [prettier_options]; its result is prettier's output with the white
      space at both ends removed and nothing else, so it neither starts nor
      ends with white space. *)
Theorem convert_formatted_trimmed flowCode opts lg lg' out l1 l2 l3 l4 a idx w h' :
  guarded_flag opts "prettier" = true ->
  parse flowCode parseOptions lg = (l1, inr a) ->
  index_comments (ast_comments a) l1 = (l2, inr idx) ->
  traverse (ast_program a) (start_world a opts idx) l2 = (l3, inr w) ->
  fixComments (map_at (w_maps w) (new_map ∅).1) (w_nodes w) l3 = (l4, inr h') ->
  convert flowCode opts lg = (lg', inr out) ->
  exists l5 l6 tsCode formatted pre post,
    debug_dump opts l4 = (l5, inr tt) /\
    generate h' (ast_program a) flowCode l5 = (l6, inr tsCode) /\
    prettier_format (append_trailing_lines tsCode (trailingLines (w_state w))) (prettier_options opts) l6
      = (lg', inr formatted) /\
    list_ascii_of_string formatted = pre ++ list_ascii_of_string out ++ post /\
    all_space pre /\ all_space post /\ edge_clean (list_ascii_of_string out).
Proof.
  intros Hpr Hp Hi Hw Hf Hrun.
  rewrite (convert_after_walk _ _ _ _ _ _ _ _ _ Hp Hi Hw), (after_walk_fixed _ _ _ _ _ _ _ Hf) in Hrun.
  apply bind_inr in Hrun as (l5 & [] & Hd & Hrun).
  apply bind_inr in Hrun as (l6 & code & Hg & Hrun).
  unfold format_output in Hrun. rewrite Hpr in Hrun.
  apply bind_inr in Hrun as (l7 & formatted & Hpf & Hret). injection Hret as <- <-.
  exists l5, l6, code, formatted. rewrite js_trim_list.
  destruct (trim_list_spec (list_ascii_of_string formatted)) as (pre & post & Hsplit & Hpre & Hpost & Hc).
  by exists pre, post.
Qed.

(** C21 (functional, lines 77-79): when [options.debug] is truthy, a
      successful [convert] has dumped the AST to the log. *)
Theorem convert_debug_logged `{!PipelineLaws} flowCode opts lg lg' out :
  guarded_flag opts "debug" = true ->
  convert flowCode opts lg = (lg', inr out) -> LogAst ∈ lg'.
Proof.
  intros Hd Hrun. trace_of Hrun.
  unfold debug_dump in Hd0. rewrite Hd in Hd0. injection Hd0 as <-.
  rewrite generate_framed in Hg. injection Hg as <- _.
  rewrite (format_output_framed _ _ format_framed) in Hfmt. injection Hfmt as <- _.
  set_solver.
Qed.


End Pipeline.

(** C27 (equivalence, lines 73-98): after the walk, [convert] reads nothing of
      [state] but [trailingLines] (the generator is given the AST and the
      text only): two handler catalogs that visit the same nodes and do the
      same thing apart from what they add to [usedUtilityTypes] give the
      same result and the same log. *)
Theorem convert_ignores_usedUtilityTypes `{Collaborators} `{Prettier} (T1 T2 : Transform)
    flowCode opts lg :
  (forall h n, @children T1 h n = @children T2 h n) -> @stack_limit T1 = @stack_limit T2 ->
  (forall n w1 w2 l, forget_used w1 = forget_used w2 ->
     res_rel (fun v1 v2 => forget_used v1 = forget_used v2) (@handle T1 n w1 l) (@handle T2 n w2 l)) ->
  @convert _ T1 _ flowCode opts lg = @convert _ T2 _ flowCode opts lg.
Proof.
  intros Hch Hlim Hsim. rewrite !convert_after_parse. unfold after_parse, after_walk. apply res_rel_eq.
  apply (res_rel_bind eq); [apply res_rel_refl|]. intros a ? l1 <-.
  apply (res_rel_bind eq); [apply res_rel_refl|]. intros idx ? l2 <-.
  apply (res_rel_bind (fun v1 v2 => forget_used v1 = forget_used v2)); [by apply traverse_sim|].
  intros w1 w2 l3 Hw. cbv beta.
  assert (w_nodes w1 = w_nodes w2) as -> by exact (f_equal w_nodes Hw).
  assert (w_maps w1 = w_maps w2) as -> by exact (f_equal w_maps Hw).
  assert (trailingLines (w_state w1) = trailingLines (w_state w2)) as ->
    by exact (f_equal (fun v => trailingLines (w_state v)) Hw).
  apply res_rel_refl.
Qed.


(** ** An end-to-end run: spec scenarios 1, 2 and 3

    The parser returns the AST of [Reconciler.Scenario] ([stmt1 // note],
    [// between], [stmt2]) for any non-empty text, an AST with an unlocated
    comment for ["/*?*/"], and a [ParseError] for the empty text. The
    generator prints each statement with its comments; the handler of
    statement 2 sets [trailingLines] to 3. *)

Module E2E.
Import Scenario.

Definition program : nid := 3%positive.
Definition good_ast : ast := {| ast_heap := store; ast_program := program; ast_comments := [note; between] |}.
Definition bad_ast : ast := {| ast_heap := store; ast_program := program; ast_comments := [note; broken] |}.

Fixpoint render_comments (cs : list comment) : string :=
  match cs with
  | [] => ""
  | c :: cs' => (" //" ++ cvalue c ++ render_comments cs')%string
  end.

Definition render (nd : node) : string :=
  (render_comments (default [] (leadingComments nd)) ++ " " ++ ntype nd ++
   render_comments (default [] (trailingComments nd)) ++ String newline_char "")%string.

#[export] Instance collaborators : Collaborators := {|
  parse := fun code _ =>
    if String.eqb code "" then throw (ParseError "Unexpected token (1:0)")
    else if String.eqb code "/*?*/" then ret bad_ast else ret good_ast;
  generate := fun h _ _ => ret (render (h 1%positive) ++ render (h 2%positive))%string
|}.

Definition with_trailing_lines (w : world) (n : Z) : world :=
  let st := w_state w in
  {| w_nodes := w_nodes w; w_maps := w_maps w;
     w_state := {| usedUtilityTypes := usedUtilityTypes st; options := options st;
                   commentsToNodesMap := commentsToNodesMap st;
                   startLineToComments := startLineToComments st; trailingLines := Some n |} |}.

(** The program 3 has the statements 1 and 2. *)
Definition program_children (h : heap) (n : nid) : list nid :=
  if Pos.eqb n 3 then [1%positive; 2%positive] else [].

#[export] Instance walker : Transform := {|
  children := program_children;
  handle := fun n w => if Pos.eqb n 2 then ret (with_trailing_lines w 3) else ret w;
  stack_limit := 100
|}.

#[export] Instance walker_laws : TransformLaws.
Proof.
  constructor. intros n w lg lg' w' Hrun. simpl in Hrun.
  destruct n as [[]|[]|]; unfold ret in Hrun; injection Hrun as <- <-; simpl; repeat split; done.
Qed.

#[export] Instance prettier : Prettier := FormatExample.padding.

#[export] Instance laws : PipelineLaws.
Proof.
  constructor.
  - intros code o. simpl. destruct (String.eqb code ""); [apply framed_throw|].
    destruct (String.eqb code "/*?*/"); apply framed_ret.
  - intros. apply framed_ret.
  - intros. apply framed_ret.
Qed.

Definition failing_walker : Transform := {|
  children := program_children;
  handle := fun n w =>
    if Pos.eqb n 1 then throw (HandlerError (ntype (w_nodes w n)) (nloc (w_nodes w n))) else ret w;
  stack_limit := 100
|}.

(** The catalog [walker] that, in addition, reports [$Keys] as used on
    statement 1. *)
Definition walker_keys : Transform := {|
  children := program_children;
  handle := fun n w =>
    if Pos.eqb n 2 then ret (with_trailing_lines w 3)
    else ret {| w_nodes := w_nodes w; w_maps := w_maps w;
                w_state := WalkExample.add_used "$Keys" (w_state w) |};
  stack_limit := 100
|}.

Definition with_map (st : conv_state) (r : mref) : conv_state :=
  {| usedUtilityTypes := usedUtilityTypes st; options := options st;
     commentsToNodesMap := r; startLineToComments := startLineToComments st;
     trailingLines := trailingLines st |}.

(** A catalog that breaks [TransformLaws]: on statement 1 its handler runs
    [state.commentsToNodesMap = new Map()]. *)
Definition replacing_walker : Transform := {|
  children := program_children;
  handle := fun n w =>
    if Pos.eqb n 1 then
      let '(r, ms) := new_map (w_maps w) in
      ret {| w_nodes := w_nodes w; w_maps := ms; w_state := with_map (w_state w) r |}
    else ret w;
  stack_limit := 100
|}.

Definition opts_plain : jsval := JObj [("debug", JBool true)].
Definition opts_pretty : jsval := JObj [("prettier", JBool true)].
Definition source : string := "const a = 1; // note".

(** The stages of a run on [source]: the index, the walked world and the
    reconciled store. *)
Definition idx0 : gmap Z comment := <[2%Z := between]> (<[1%Z := note]> ∅).
Definition walked (opts : jsval) : world :=
  outcome_or (traverse program (start_world good_ast opts idx0) []) (start_world good_ast opts idx0).
Definition fixed (opts : jsval) : heap :=
  outcome_or (fixComments (map_at (w_maps (walked opts)) (new_map ∅).1) (w_nodes (walked opts)) [])
    (w_nodes (walked opts)).

Definition plain_out : string := outcome_or (convert source opts_plain []) "".
Definition plain_log : list log_event := fst (convert source opts_plain []).
Definition pretty_out : string := outcome_or (convert source opts_pretty []) "".
End E2E.

Import E2E.

(** Scenario 2 end to end: [// between] is printed once, before [stmt2];
    scenario 3: three newlines follow the generated text; with prettier the
    text is trimmed. *)
Example convert_scenario :
  plain_out = " ExpressionStatement // note
 // between ExpressionStatement



"%string /\ plain_log = [LogAst] /\
  pretty_out = "ExpressionStatement // note
 // between ExpressionStatement"%string.
Proof. vm_compute. repeat split. Qed.

Lemma convert_parse_error_witness :
  convert "" opts_plain [] = ([], inl (ParseError "Unexpected token (1:0)")).
Proof. apply convert_parse_error. reflexivity. Defined.

Lemma convert_unlocated_comment_witness :
  exists msg, convert "/*?*/" opts_plain [] = ([], inl (TypeError msg)).
Proof. apply (convert_unlocated_comment _ _ _ _ bad_ast Scenario.broken); [reflexivity|simpl; by right; left|reflexivity]. Defined.

Lemma convert_handler_error_witness :
  @convert collaborators failing_walker prettier source opts_plain [] =
    ([], inl (HandlerError "ExpressionStatement" (Some (Scenario.loc_at 1)))).
Proof.
  apply (@convert_handler_error collaborators failing_walker prettier source opts_plain [] [] [] []
           good_ast (<[2%Z := Scenario.between]> (<[1%Z := Scenario.note]> ∅)));
    vm_compute; reflexivity.
Defined.

Lemma convert_debug_logged_witness : LogAst ∈ plain_log.
Proof. apply (convert_debug_logged source opts_plain [] plain_log plain_out); vm_compute; reflexivity. Defined.

(** A handler that assigns a new [Map] to [state.commentsToNodesMap]
    diverts the recording of statement 2's leading comment away from the
    [Map] that [fixComments] reads: the entry of [// between] there has no
    leading node, the comment is kept as trailing statement 1 and printed
    twice, against spec scenario 2. *)
Example convert_replaced_map_duplicates :
  @convert collaborators replacing_walker prettier source opts_plain [] =
    ([LogAst], inr " ExpressionStatement // note // between
 // between ExpressionStatement
"%string).
Proof. vm_compute. reflexivity. Qed.

Lemma convert_succeeds_witness : exists lg' out, convert source opts_pretty [] = (lg', inr out).
Proof.
  apply (convert_succeeds source opts_pretty [] [] good_ast).
  - reflexivity.
  - vm_compute. repeat constructor; eexists; reflexivity.
  - intros idx l. do 2 eexists. split; [reflexivity|]. apply fix_okb_spec. vm_compute. reflexivity.
  - intros h n l. do 2 eexists. reflexivity.
  - intros code o l. do 2 eexists. reflexivity.
Defined.

Lemma convert_ignores_usedUtilityTypes_witness :
  @convert collaborators walker prettier source opts_plain [] =
    @convert collaborators walker_keys prettier source opts_plain [].
Proof.
  apply convert_ignores_usedUtilityTypes; [reflexivity|reflexivity|].
  intros n w1 w2 l Hw. destruct n as [[]|[]|]; split; simpl; try done.
  all: unfold forget_used in *; simpl in *; congruence.
Defined.

Lemma convert_unformatted_witness :
  exists l4 h',
    heap_eq h' (fixComments_spec (map_at (w_maps (walked opts_plain)) (new_map ∅).1)
                  (w_nodes (walked opts_plain))) /\
    convert source opts_plain [] =
      (debug_dump opts_plain ;;; tsCode <- generate h' (ast_program good_ast) source ;;
       ret (tsCode ++ newlines (loop_fuel (trailingLines (w_state (walked opts_plain)))))%string) l4.
Proof.
  apply (convert_unformatted source opts_plain [] [] [] [] good_ast idx0);
    [vm_compute; reflexivity..|apply fix_okb_spec; vm_compute; reflexivity].
Defined.

Lemma convert_keeps_same_line_witness :
  exists l4 h',
    fixComments (map_at (w_maps (walked opts_plain)) (new_map ∅).1) (w_nodes (walked opts_plain)) []
      = (l4, inr h') /\
    convert source opts_plain [] =
      (debug_dump opts_plain ;;; tsCode <- generate h' (ast_program good_ast) source ;;
       format_output opts_plain
         (append_trailing_lines tsCode (trailingLines (w_state (walked opts_plain))))) l4 /\
    forall t cs c ln,
      trailingComments (w_nodes (walked opts_plain) t) = Some cs -> In c cs -> ctype c = CommentLine ->
      comment_start_line c = Some ln -> node_start_line (w_nodes (walked opts_plain) t) = Some ln ->
      exists cs', trailingComments (h' t) = Some cs' /\ In c cs'.
Proof.
  apply (convert_keeps_same_line source opts_plain [] [] [] [] good_ast idx0);
    [vm_compute; reflexivity..|apply fix_okb_spec; vm_compute; reflexivity].
Defined.

Lemma convert_formatted_trimmed_witness :
  exists l5 l6 tsCode formatted pre post,
    debug_dump opts_pretty [] = (l5, inr tt) /\
    generate (fixed opts_pretty) (ast_program good_ast) source l5 = (l6, inr tsCode) /\
    prettier_format (append_trailing_lines tsCode (trailingLines (w_state (walked opts_pretty))))
      (prettier_options opts_pretty) l6 = ([], inr formatted) /\
    list_ascii_of_string formatted = pre ++ list_ascii_of_string pretty_out ++ post /\
    all_space pre /\ all_space post /\ edge_clean (list_ascii_of_string pretty_out).
Proof.
  apply (convert_formatted_trimmed source opts_pretty [] [] pretty_out [] [] [] [] good_ast idx0);
    vm_compute; reflexivity.
Defined.

Lemma convert_reconciles_state_map_witness :
  map_at (w_maps (walked opts_plain)) (new_map ∅).1 = state_map (walked opts_plain) /\
  cmap_wf (state_map (walked opts_plain)) /\
  convert source opts_plain [] =
    (h' <- fixComments (state_map (walked opts_plain)) (w_nodes (walked opts_plain)) ;;
     debug_dump opts_plain ;;;
     tsCode <- generate h' (ast_program good_ast) source ;;
     format_output opts_plain
       (append_trailing_lines tsCode (trailingLines (w_state (walked opts_plain))))) [].
Proof. apply (convert_reconciles_state_map source opts_plain [] [] [] [] good_ast idx0); vm_compute; reflexivity. Defined.
